(** * LMC assembler ([assembler.py]): a shallow embedding and its verification

    The development follows the class [LMCAssembler]: the line parser
    ([parse_line]), the operand parser ([parse_operand]), the label
    resolver ([first_pass]), the encoder ([assemble]) and the emitter of
    the C interpreter ([generate_c_code]).

    Modelling conventions.
    - A Python [str] is a [string]; source text is ASCII, so a character
      is an [ascii] below 128 (Python's handling of non-ASCII text --
      Unicode white space, digits and case mappings -- is outside the
      embedding).
    - A Python [int] is a [Z]; list indices and the address counters,
      which only count upwards from 0, are [nat]. The conversions
      [int(text)] and [str(number)] are total on numerals of any length:
      the interpreter's optional cap on their digits
      ([sys.set_int_max_str_digits], absent before Python 3.11) is
      switched off.
    - [self.labels] (a dict) is a [gmap string nat]; [self.memory] (a list
      of [Optional[int]]) is a [list (option Z)], written with a bounds
      check because Python raises [IndexError] out of range.
    - Exceptions are values of [exn] returned through [result]; of an
      [AssemblyError] the embedding keeps the class and the line number
      that the message prints. *)

From stdpp Require Import gmap strings list sorting pretty.
From Stdlib Require Import ZArith Ascii.

Local Open Scope string_scope.
Local Open Scope list_scope.
Local Open Scope nat_scope.

(** ** Python built-ins used by the assembler *)

Module Py.

(** [str.isspace] for one ASCII character, which is also what [\s]
    matches and what [str.strip] removes: TAB..CR, FS..US and SPACE. *)
Definition isspace (c : ascii) : bool :=
  let n := nat_of_ascii c in
  ((9 <=? n) && (n <=? 13)) || ((28 <=? n) && (n <=? 32)).

Fixpoint lstrip (s : string) : string :=
  match s with
  | String c s' => if isspace c then lstrip s' else s
  | EmptyString => EmptyString
  end.

Fixpoint rstrip (s : string) : string :=
  match s with
  | String c s' =>
      match rstrip s' with
      | EmptyString => if isspace c then EmptyString else String c EmptyString
      | r => String c r
      end
  | EmptyString => EmptyString
  end.

(** [s.strip()] *)
Definition strip (s : string) : string := rstrip (lstrip s).

Definition is_newline (c : ascii) : bool := nat_of_ascii c =? 10.
Definition is_slash (c : ascii) : bool := nat_of_ascii c =? 47.

(** [re.sub(r'//.*', '', s)]: every match starts at a [//] and runs up
    to, and not including, the next newline ([.] matches no newline).
    [in_comment] tells that the scan is inside a match. *)
Fixpoint re_sub_comment_go (in_comment : bool) (s : string) : string :=
  match s with
  | EmptyString => EmptyString
  | String c s' =>
      if in_comment then
        if is_newline c then String c (re_sub_comment_go false s')
        else re_sub_comment_go true s'
      else
        match s' with
        | String c' _ =>
            if is_slash c && is_slash c' then re_sub_comment_go true s'
            else String c (re_sub_comment_go false s')
        | EmptyString => String c EmptyString
        end
  end.

Definition re_sub_comment (s : string) : string := re_sub_comment_go false s.

(** [re.split(r'\s+', s)]: the pieces between the maximal runs of white
    space; a run at either end leaves an empty piece there. [in_ws]
    tells that the previous character belonged to a run. *)
Fixpoint re_split_ws_go (in_ws : bool) (s : string) : list string :=
  match s with
  | EmptyString => [EmptyString]
  | String c s' =>
      if isspace c then
        if in_ws then re_split_ws_go true s'
        else EmptyString :: re_split_ws_go true s'
      else
        match re_split_ws_go false s' with
        | piece :: pieces => String c piece :: pieces
        | [] => [String c EmptyString]
        end
  end.

Definition re_split_ws (s : string) : list string := re_split_ws_go false s.

(** [s.endswith(':')] *)
Fixpoint endswith_colon (s : string) : bool :=
  match s with
  | EmptyString => false
  | String c EmptyString => nat_of_ascii c =? 58
  | String _ s' => endswith_colon s'
  end.

(** [s[:-1]] *)
Fixpoint drop_last (s : string) : string :=
  match s with
  | EmptyString => EmptyString
  | String _ EmptyString => EmptyString
  | String c s' => String c (drop_last s')
  end.

Definition upper_char (c : ascii) : ascii :=
  let n := nat_of_ascii c in
  if (97 <=? n) && (n <=? 122) then ascii_of_nat (n - 32) else c.

(** [s.upper()] *)
Fixpoint upper (s : string) : string :=
  match s with
  | EmptyString => EmptyString
  | String c s' => String (upper_char c) (upper s')
  end.

(** [s.startswith(p)] *)
Definition startswith (p s : string) : bool := String.prefix p s.

(** Truth value of an [Optional[str]]: [None] and [''] are false. *)
Definition truthy (o : option string) : bool :=
  match o with
  | Some (String _ _) => true
  | _ => false
  end.

(** *** [int(s, base)] on text (CPython's [PyLong_FromString]) *)

(** [Py_ISSPACE]: the white space that [int] skips at both ends. *)
Definition c_isspace (c : ascii) : bool :=
  let n := nat_of_ascii c in
  ((9 <=? n) && (n <=? 13)) || (n =? 32).

(** [_PyLong_DigitValue]: 37 for a character that is no digit. *)
Definition digit_value (c : ascii) : nat :=
  let n := nat_of_ascii c in
  if (48 <=? n) && (n <=? 57) then n - 48
  else if (97 <=? n) && (n <=? 122) then n - 87
  else if (65 <=? n) && (n <=? 90) then n - 55
  else 37.

Definition is_underscore (c : ascii) : bool := nat_of_ascii c =? 95.

(** The digit scan of [long_from_string_base]: digits below [base] with
    single underscores between them. It yields the value read so far,
    the number of digits and the unread rest; a doubled or a trailing
    underscore is an error. *)
Fixpoint scan_digits (base : nat) (prev_underscore : bool) (acc : Z)
    (digits : nat) (s : string) : option (Z * nat * string) :=
  match s with
  | String c s' =>
      if is_underscore c then
        if prev_underscore then None
        else scan_digits base true acc digits s'
      else if digit_value c <? base then
        scan_digits base false (acc * Z.of_nat base + Z.of_nat (digit_value c))%Z
          (S digits) s'
      else if prev_underscore then None
      else Some (acc, digits, s)
  | EmptyString =>
      if prev_underscore then None else Some (acc, digits, s)
  end.

Fixpoint skip_space (s : string) : string :=
  match s with
  | String c s' => if c_isspace c then skip_space s' else s
  | EmptyString => EmptyString
  end.

(** An optional sign: the sign and the rest. *)
Definition read_sign (s : string) : Z * string :=
  match s with
  | String c s' =>
      if nat_of_ascii c =? 43 then (1%Z, s')
      else if nat_of_ascii c =? 45 then ((-1)%Z, s')
      else (1%Z, s)
  | EmptyString => (1%Z, s)
  end.

(** The radix prefix that [base] admits ([0x], [0o], [0b], either
    case), with one underscore allowed after it. *)
Definition skip_radix_prefix (base : nat) (s : string) : string :=
  match s with
  | String c0 (String c1 s') =>
      let n1 := nat_of_ascii c1 in
      if (nat_of_ascii c0 =? 48) &&
         (((base =? 16) && ((n1 =? 120) || (n1 =? 88))) ||
          ((base =? 8) && ((n1 =? 111) || (n1 =? 79))) ||
          ((base =? 2) && ((n1 =? 98) || (n1 =? 66))))
      then
        match s' with
        | String c2 s'' => if is_underscore c2 then s'' else s'
        | EmptyString => s'
        end
      else s
  | _ => s
  end.

(** [int(s, base)] for [base] in 2..36; [None] stands for [ValueError]. *)
Definition int (base : nat) (s : string) : option Z :=
  let '(sign, s1) := read_sign (skip_space s) in
  let s2 := skip_radix_prefix base s1 in
  match s2 with
  | String c _ =>
      if is_underscore c then None
      else
        match scan_digits base false 0%Z 0 s2 with
        | Some (value, digits, rest) =>
            if digits =? 0 then None
            else
              match skip_space rest with
              | EmptyString => Some (sign * value)%Z
              | String _ _ => None
              end
        | None => None
        end
  | EmptyString => None
  end.

(** [str(n)], also what an f-string field [{n}] prints. *)
Definition str (n : Z) : string := pretty n.

Fixpoint zeros (n : nat) : string :=
  match n with
  | O => EmptyString
  | S n' => String "0" (zeros n')
  end.

(** [s.zfill(width)]: zeros go after a leading sign. *)
Definition zfill (width : nat) (s : string) : string :=
  let len := String.length s in
  if width <=? len then s
  else
    match s with
    | String c s' =>
        if (nat_of_ascii c =? 43) || (nat_of_ascii c =? 45)
        then String c (zeros (width - len) +:+ s')
        else zeros (width - len) +:+ s
    | EmptyString => zeros width
    end.

(** The f-string field [{n:02d}] of a non-negative [n]. *)
Definition format_02d (n : nat) : string := zfill 2 (str (Z.of_nat n)).

(** ["\n".join(ls)] *)
Fixpoint join_lines (ls : list string) : string :=
  match ls with
  | [] => EmptyString
  | [l] => l
  | l :: ls' => l +:+ String "010"%char (join_lines ls')
  end.

End Py.

(** ** Exceptions and results *)

(** The four subclasses of [AssemblyError]. *)
Inductive error_kind : Set :=
  | InvalidInstructionError
  | DuplicateLabelError
  | OperandRangeError
  | InvalidOperandError.

(** What a method can raise: an [AssemblyError] of some class whose
    message ends in [on line <line>], or one of the built-in exceptions
    that the assembler does not catch. *)
Inductive exn : Set :=
  | AssemblyError (kind : error_kind) (line : nat)
  | IndexError
  | ValueError.

Inductive result (A : Type) : Type :=
  | Ok (a : A)
  | Raise (e : exn).

Arguments Ok {A} a.
Arguments Raise {A} e.

(** Sequencing: the first exception raised ends the computation. *)
Global Instance result_bind : MBind result := λ A B k r,
  match r with
  | Ok a => k a
  | Raise e => Raise e
  end.

Global Instance error_kind_eq_dec : EqDecision error_kind.
Proof. solve_decision. Defined.

Global Instance exn_eq_dec : EqDecision exn.
Proof. solve_decision. Defined.

(** ** The assembler object *)

Record LMCAssembler : Type := mkLMCAssembler {
  memory_size : nat;
  labels : gmap string nat;
  memory : list (option Z);
}.

(** [LMCAssembler.__init__] *)
Definition init (memory_size : nat) : LMCAssembler :=
  {| memory_size := memory_size;
     labels := ∅;
     memory := replicate memory_size None |}.

(** [LMCAssembler()], as [main] creates it. *)
Definition new : LMCAssembler := init 100.

(** [LMCAssembler.INSTRUCTIONS] *)
Definition INSTRUCTIONS : gmap string (option string) :=
  list_to_map
    [ ("ADD", Some "1");
      ("SUB", Some "2");
      ("STA", Some "3");
      ("LDA", Some "5");
      ("BRA", Some "6");
      ("BRZ", Some "7");
      ("BRP", Some "8");
      ("INP", Some "901");
      ("OUT", Some "902");
      ("HLT", Some "000");
      ("DAT", None);
      ("MUL", Some "4") ].

(** [INSTRUCTIONS.get(instruction)]: [None] for a missing key too. *)
Definition INSTRUCTIONS_get (instruction : string) : option string :=
  default None (INSTRUCTIONS !! instruction).

(** [o == s] for an [Optional[str]] [o]. *)
Definition opt_eqb (o : option string) (s : string) : bool :=
  match o with
  | Some s' => String.eqb s' s
  | None => false
  end.

(** [self.memory[address] = value] *)
Definition memory_setitem (self : LMCAssembler) (address : nat) (value : Z)
    : result LMCAssembler :=
  if address <? List.length (memory self) then
    Ok {| memory_size := memory_size self;
          labels := labels self;
          memory := <[address := Some value]> (memory self) |}
  else Raise IndexError.

(** [LMCAssembler.parse_line]. [re.split] returns at least one piece, so
    [parts[0]] is always there. *)
Definition parse_line (line : string) (line_number : nat)
    : option string * option string * option string :=
  let line := Py.re_sub_comment line in
  let line := Py.strip line in
  match line with
  | EmptyString => (None, None, None)
  | String _ _ =>
      let parts := Py.re_split_ws line in
      let '(label, parts) :=
        match parts with
        | first :: rest =>
            if Py.endswith_colon first then (Some (Py.drop_last first), rest)
            else (None, parts)
        | [] => (None, parts)
        end in
      match parts with
      | first :: rest =>
          (label, Some (Py.upper first),
           match rest with
           | second :: _ => Some second
           | [] => None
           end)
      | [] => (label, None, None)
      end
  end.

(** The loop body of [LMCAssembler.first_pass]: the address counter and
    the label table after the line [line_number] (0-based). *)
Definition first_pass_step (line_number : nat) (line : string)
    (st : nat * gmap string nat) : result (nat * gmap string nat) :=
  let '(address, labels) := st in
  let '(label, instruction, _) := parse_line line (line_number + 1) in
  labels ←
    (match label with
     | Some (String _ _ as label) =>
         match labels !! label with
         | Some _ => Raise (AssemblyError DuplicateLabelError (line_number + 1))
         | None => Ok (<[label := address]> labels)
         end
     | _ => Ok labels
     end);
  let address :=
    if Py.truthy instruction && negb (opt_eqb instruction "DAT") then address + 1
    else if opt_eqb instruction "DAT" then address + 1
    else address in
  Ok (address, labels).

Fixpoint first_pass_loop (lines : list string) (line_number : nat)
    (st : nat * gmap string nat) : result (nat * gmap string nat) :=
  match lines with
  | [] => Ok st
  | line :: lines' =>
      st ← first_pass_step line_number line st;
      first_pass_loop lines' (S line_number) st
  end.

(** [LMCAssembler.first_pass] *)
Definition first_pass (self : LMCAssembler) (lines : list string)
    : result LMCAssembler :=
  st ← first_pass_loop lines 0 (0, labels self);
  Ok {| memory_size := memory_size self;
        labels := st.2;
        memory := memory self |}.

(** The double quote, for the C text. *)
Definition dquote : string := String "034"%char EmptyString.

Module C.

(** The lines of [generate_c_code] before the memory initializers. *)
Definition preamble : list string :=
  [ "#include <stdio.h>";
    "#include <stdlib.h>";
    "";
    "int main() {";
    "    int accumulator = 0;";
    "    int memory[100] = {0};";
    "    int input_value;";
    "    int pc = 0;";
    "    int instruction, operand;";
    "    int running = 1;";
    "";
    "    // Initialize memory with assembled code" ].

(** The lines after them: the fetch-decode-execute loop. *)
Definition interpreter : list string :=
  [ "";
    "    // Execute program";
    "    while (running) {";
    "        if (pc >= 100) {";
    "            printf(" +:+ dquote +:+ "Error: Program counter out of bounds\n" +:+ dquote +:+ ");";
    "            exit(1);";
    "        }";
    "";
    "        instruction = memory[pc] / 100;";
    "        operand = memory[pc] % 100;";
    "        pc++;";
    "";
    "        switch (instruction) {";
    "            case 0:  // HLT";
    "                running = 0;";
    "                break;";
    "            case 1:  // ADD";
    "                accumulator += memory[operand];";
    "                accumulator %= 1000;";
    "                break;";
    "            case 2:  // SUB";
    "                accumulator -= memory[operand];";
    "               if (accumulator < 0) {";
    "                    accumulator = 0;";
    "                }";
    "                break;";
    "            case 3:  // STA";
    "                memory[operand] = accumulator;";
    "                break;";
    "            case 4:  // MUL";
    "                accumulator *= memory[operand];";
    "                accumulator %= 1000;";
    "                break;";
    "            case 5:  // LDA";
    "                accumulator = memory[operand];";
    "                break;";
    "            case 6:  // BRA";
    "                pc = operand;";
    "                break;";
    "            case 7:  // BRZ";
    "                if (accumulator == 0) {";
    "                    pc = operand;";
    "                }";
    "                break;";
    "            case 8:  // BRP";
    "                if (accumulator >= 0) {";
    "                    pc = operand;";
    "                }";
    "                break;";
    "            case 9:  // INP/OUT";
    "                if (operand == 1) {";
    "                    printf(" +:+ dquote +:+ "Enter a value (0-999): " +:+ dquote +:+ ");";
    "                    if (scanf(" +:+ dquote +:+ "%d" +:+ dquote +:+ ", &input_value) != 1) {";
    "                       perror(" +:+ dquote +:+ "scanf error" +:+ dquote +:+ ");";
    "                       exit(1);";
    "                    }";
    "                    if (input_value < 0 || input_value > 999) {";
    "                        printf(" +:+ dquote +:+ "Invalid input. Using 0.\n" +:+ dquote +:+ ");";
    "                        input_value = 0;";
    "                    }";
    "                    accumulator = input_value;";
    "                } else if (operand == 2) {";
    "                    printf(" +:+ dquote +:+ "Output: %d\n" +:+ dquote +:+ ", accumulator);";
    "                }";
    "                break;";
    "            default:";
    "                printf(" +:+ dquote +:+ "Error: Invalid instruction %d at address %d\n" +:+ dquote +:+ ", instruction, pc - 1);";
    "                exit(1);";
    "        }";
    "    }";
    "";
    "    return 0;";
    "}" ].

End C.

(** The f-string [f"    memory[{i}] = {value};"]. *)
Definition initializer_stmt (i : nat) (value : Z) : string :=
  "    memory[" +:+ Py.str (Z.of_nat i) +:+ "] = " +:+ Py.str value +:+ ";".

(** The loop of [generate_c_code] over [enumerate(self.memory)], from
    index [i] on: a statement is appended for every cell that is not
    [None]. *)
Fixpoint append_initializers (i : nat) (cells : list (option Z))
    (c_code : list string) : list string :=
  match cells with
  | [] => c_code
  | value :: cells' =>
      append_initializers (S i) cells'
        (match value with
         | Some value => c_code ++ [initializer_stmt i value]
         | None => c_code
         end)
  end.

(** The list [c_code] of [generate_c_code] just before it is joined. *)
Definition c_code_lines (self : LMCAssembler) : list string :=
  append_initializers 0 (memory self) C.preamble ++ C.interpreter.

(** [LMCAssembler.generate_c_code] *)
Definition generate_c_code (self : LMCAssembler) : string :=
  Py.join_lines (c_code_lines self).

(** ** The encoder *)

(** The state of the loop of [assemble]: the object and the two locals. *)
Record frame : Type := mkFrame {
  self : LMCAssembler;
  machine_code : list string;
  address : nat;
}.

(** The three statements that end each encoding branch of [assemble]:
    store the word, append the listing entry, advance the address. *)
Definition emit (st : frame) (value : Z) (entry : string) : result frame :=
  self' ← memory_setitem (self st) (address st) value;
  Ok {| self := self';
        machine_code := machine_code st ++ [entry];
        address := address st + 1 |}.

(** [instruction in ('INP', 'OUT', 'HLT')] *)
Definition is_io_or_halt (instruction : string) : bool :=
  String.eqb instruction "INP" || String.eqb instruction "OUT"
  || String.eqb instruction "HLT".

(** [int(s)] where the assembler does not catch [ValueError]. *)
Definition int_or_raise (s : string) : result Z :=
  match Py.int 10 s with
  | Some n => Ok n
  | None => Raise ValueError
  end.

(** [LMCAssembler.parse_operand]. The caller's [line_number] is printed
    as [line_number + 1]. *)
Definition parse_operand (operand_str : string) (line_number : nat) : result Z :=
  let parsed :=
    if Py.startswith "0x" operand_str then Py.int 16 operand_str
    else if Py.startswith "0b" operand_str then Py.int 2 operand_str
    else Py.int 10 operand_str in
  match parsed with
  | Some n => Ok n
  | None => Raise (AssemblyError InvalidOperandError (line_number + 1))
  end.

(** The loop body of [LMCAssembler.assemble] for the line
    [line_number] (0-based). *)
Definition assemble_step (line_number : nat) (line : string) (st : frame)
    : result frame :=
  let '(label, instruction, operand) := parse_line line (line_number + 1) in
  match instruction with
  | Some (String _ _ as instruction) =>
      if String.eqb instruction "DAT" then
        value ←
          (match operand with
           | None => Ok 0%Z
           | Some operand => parse_operand operand (line_number + 1)
           end);
        if negb ((-999 <=? value)%Z && (value <=? 999)%Z) then
          Raise (AssemblyError OperandRangeError (line_number + 1))
        else
          emit st value
            (Py.format_02d (address st) +:+ ": " +:+ Py.zfill 3 (Py.str value))
      else
        match INSTRUCTIONS_get instruction with
        | None => Raise (AssemblyError InvalidInstructionError (line_number + 1))
        | Some opcode =>
            if is_io_or_halt instruction then
              value ← int_or_raise opcode;
              emit st value (Py.format_02d (address st) +:+ ": " +:+ opcode)
            else
              match operand with
              | None => Raise (AssemblyError InvalidOperandError (line_number + 1))
              | Some operand =>
                  operand_address ←
                    (match labels (self st) !! operand with
                     | Some a => Ok (Z.of_nat a)
                     | None =>
                         operand_address ← parse_operand operand (line_number + 1);
                         if negb ((0 <=? operand_address)%Z && (operand_address <=? 99)%Z)
                         then Raise (AssemblyError OperandRangeError (line_number + 1))
                         else Ok operand_address
                     end);
                  instruction_code ←
                    int_or_raise (opcode +:+ Py.zfill 2 (Py.str operand_address));
                  emit st instruction_code
                    (Py.format_02d (address st) +:+ ": "
                     +:+ Py.zfill 3 (Py.str instruction_code))
              end
        end
  | _ => Ok st
  end.

(** The frame in which pass 2 starts: [machine_code = []], [address = 0]. *)
Definition start (self : LMCAssembler) : frame :=
  {| self := self; machine_code := []; address := 0 |}.

Fixpoint assemble_loop (lines : list string) (line_number : nat) (st : frame)
    : result frame :=
  match lines with
  | [] => Ok st
  | line :: lines' =>
      st ← assemble_step line_number line st;
      assemble_loop lines' (S line_number) st
  end.

(** [LMCAssembler.assemble]: the object as the call leaves it, and the
    returned pair [(machine_code, c_code)]. *)
Definition assemble (this : LMCAssembler) (lines : list string)
    : result (LMCAssembler * (list string * string)) :=
  this ← first_pass this lines;
  st ← assemble_loop lines 0 (start this);
  let c_code := generate_c_code (self st) in
  Ok (self st, (machine_code st, c_code)).
(** ** Vocabulary of the specification *)

(** The mnemonic of a line, upper-cased, when the line has one. *)
Definition instruction_of (line : string) : option string :=
  (parse_line line 0).1.2.

(** A line is mnemonic-bearing when it holds an instruction or [DAT]. *)
Definition mnemonic_bearing (line : string) : bool :=
  Py.truthy (instruction_of line).

(** The label that a line defines: what precedes the colon of its first
    token, when that is not empty. *)
Definition label_of (line : string) : option string :=
  match (parse_line line 0).1.1 with
  | Some (String c s) => Some (String c s)
  | _ => None
  end.

(** The number of mnemonic-bearing lines of a source text. *)
Fixpoint mnemonic_lines (lines : list string) : nat :=
  match lines with
  | [] => 0
  | line :: lines' =>
      (if mnemonic_bearing line then 1 else 0) + mnemonic_lines lines'
  end.

(** The opcode digit of the mnemonics that take an operand. *)
Definition opcode_digit (instruction : string) : option Z :=
  if String.eqb instruction "ADD" then Some 1%Z
  else if String.eqb instruction "SUB" then Some 2%Z
  else if String.eqb instruction "STA" then Some 3%Z
  else if String.eqb instruction "MUL" then Some 4%Z
  else if String.eqb instruction "LDA" then Some 5%Z
  else if String.eqb instruction "BRA" then Some 6%Z
  else if String.eqb instruction "BRZ" then Some 7%Z
  else if String.eqb instruction "BRP" then Some 8%Z
  else None.

(** The fixed word of the mnemonics that take none. *)
Definition fixed_code (instruction : string) : option Z :=
  if String.eqb instruction "INP" then Some 901%Z
  else if String.eqb instruction "OUT" then Some 902%Z
  else if String.eqb instruction "HLT" then Some 0%Z
  else None.

(** A listing entry [AA: VVV]. *)
Definition listing_entry (address : nat) (word : Z) : string :=
  Py.format_02d address +:+ ": " +:+ Py.zfill 3 (Py.str word).

(** The radix that the prefix of an operand token selects. *)
Definition radix_of (token : string) : nat :=
  if Py.startswith "0x" token then 16
  else if Py.startswith "0b" token then 2
  else 10.

(** A numeral of a base: a non-empty text of digits below the base. *)
Fixpoint all_digits (base : nat) (s : string) : bool :=
  match s with
  | EmptyString => true
  | String c s' => (Py.digit_value c <? base) && all_digits base s'
  end.

Definition numeral (base : nat) (s : string) : Prop :=
  s ≠ EmptyString ∧ all_digits base s = true.

(** The positional value of a numeral, most significant digit first. *)
Fixpoint numeral_value (base : nat) (acc : Z) (s : string) : Z :=
  match s with
  | EmptyString => acc
  | String c s' =>
      numeral_value base (acc * Z.of_nat base + Z.of_nat (Py.digit_value c))%Z s'
  end.

(** The cells of a memory that hold a value, with their indices counted
    from [i], in the order of the memory. *)
Fixpoint set_slots (i : nat) (cells : list (option Z)) : list (nat * Z) :=
  match cells with
  | [] => []
  | Some value :: cells' => (i, value) :: set_slots (S i) cells'
  | None :: cells' => set_slots (S i) cells'
  end.




(** A token: a non-empty text without white space and without slash. *)
Definition token_char (c : ascii) : bool :=
  negb (Py.isspace c) && negb (Py.is_slash c).

Fixpoint token_text (s : string) : bool :=
  match s with
  | EmptyString => true
  | String c s' => token_char c && token_text s'
  end.

Definition token (s : string) : Prop :=
  s ≠ EmptyString ∧ token_text s = true.

(** The value of an operand token read as a literal of the radix that
    its prefix selects; [None] when it is no literal of that radix. *)
Definition literal_value (token : string) : option Z :=
  Py.int (radix_of token) token.

(** An operand of the line with index [ln] resolves to the address [a]:
    through the label table when it is a key of the table, and as a
    literal otherwise. *)
Definition resolves (L : gmap string nat) (operand : string) (ln : nat)
    (a : Z) : Prop :=
  match L !! operand with
  | Some n => a = Z.of_nat n
  | None => parse_operand operand (ln + 1) = Ok a
  end.


(** The frame that [emit] leaves when the address is inside the memory. *)
Definition emitted (st : frame) (value : Z) (entry : string) : frame :=
  {| self := {| memory_size := memory_size (self st);
                labels := labels (self st);
                memory := <[address st := Some value]> (memory (self st)) |};
     machine_code := machine_code st ++ [entry];
     address := address st + 1 |}.

(** The exceptions of a step of pass 2 that come before its store: an
    [AssemblyError] of one of three classes, which names the line of the
    step or, out of [parse_operand], the line after it. *)
Definition before_store (ln : nat) (e : exn) : Prop :=
  ∃ kind n, e = AssemblyError kind n ∧ kind ≠ DuplicateLabelError ∧
            (n = ln + 1 ∨ kind = InvalidOperandError ∧ n = ln + 2).

Fixpoint no_slash (s : string) : bool :=
  match s with
  | EmptyString => true
  | String c s' => negb (Py.is_slash c) && no_slash s'
  end.

(** Texts that [rstrip] leaves alone. *)
Definition ends_in_token (s : string) : Prop :=
  s ≠ EmptyString ∧ Py.rstrip s = s.

(** ** Sources for the concrete cases *)

(** A forward reference: [end] is used on line 1 and defined on line 3. *)
Definition forward_reference : list string :=
  ["BRA end"; "HLT"; "end: HLT"].

(** 100 words, and behind them a label that the first line names. *)
Definition label_behind_memory : list string :=
  "BRA end" :: replicate 99 "HLT" ++ ["end:"].

(** Two labels that differ in letter case only, and an operand that no
    instruction reads. *)
Definition two_cases : list string :=
  ["x: DAT 1"; "X: DAT 2"; "loop: LDA x"; "HLT LOOP"].

(** ** Vocabulary of the further properties *)

(** The labels that the lines of a source text define, in their order. *)
Definition defined_labels (lines : list string) : list string :=
  omap label_of lines.

(** Texts without white space, without lower-case letter, without
    newline. *)
Fixpoint no_space (s : string) : bool :=
  match s with
  | EmptyString => true
  | String c s' => negb (Py.isspace c) && no_space s'
  end.

Definition lower_char (c : ascii) : bool :=
  let n := nat_of_ascii c in (97 <=? n) && (n <=? 122).

Fixpoint no_lower (s : string) : bool :=
  match s with
  | EmptyString => true
  | String c s' => negb (lower_char c) && no_lower s'
  end.

Fixpoint no_newline (s : string) : bool :=
  match s with
  | EmptyString => true
  | String c s' => negb (Py.is_newline c) && no_newline s'
  end.

(** The line terminator that [readlines] leaves at the end of a line. *)
Definition newline : string := String "010"%char EmptyString.

(** The words that pass 2 stores: a word of the three-digit range, or
    the word of an operand instruction whose operand is a label with an
    address beyond 99. *)
Definition stored_word (L : gmap string nat) (w : Z) : Prop :=
  (-999 ≤ w ≤ 999)%Z ∨
  ∃ d lab a, (1 ≤ d ≤ 8)%Z ∧ L !! lab = Some a ∧ 100 ≤ a ∧
             int_or_raise (Py.str d +:+ Py.zfill 2 (Py.str (Z.of_nat a))) = Ok w.

(** ** The command line *)

Definition is_dot (c : ascii) : bool := nat_of_ascii c =? 46.

(** The text before the last dot of [s]; [None] when [s] has no dot. *)
Fixpoint before_last_dot (s : string) : option string :=
  match s with
  | EmptyString => None
  | String c s' =>
      match before_last_dot s' with
      | Some head => Some (String c head)
      | None => if is_dot c then Some EmptyString else None
      end
  end.

(** [s.rsplit('.', 1)[0]]: without a dot the list that [rsplit]
    returns holds [s] alone. *)
Definition rsplit_dot_first (s : string) : string :=
  default s (before_last_dot s).

(** The name of the file that [main] writes,
    [input_file.rsplit('.', 1)[0] + '.c']. *)
Definition output_file (input_file : string) : string :=
  rsplit_dot_first input_file +:+ ".c".

Fixpoint no_dot (s : string) : bool :=
  match s with
  | EmptyString => true
  | String c s' => negb (is_dot c) && no_dot s'
  end.

(** ** The emitted program *)

(** The meaning of the C program that [generate_c_code] writes, read
    off its text. An [int] has 32 bits. A signed overflow and an index
    outside [memory] are undefined behaviour and end a run as such. The
    variables [instruction], [operand] and [input_value] are assigned
    before each use and are no part of the state; [running] is 1 as long
    as the loop goes on. What [scanf] delivers is given beforehand, call
    by call: [Some v] when it converts an [int] [v], [None] when it
    fails; at the end of the list the input is at its end. *)
Module Machine.

Definition int_min : Z := -2147483648.
Definition int_max : Z := 2147483647.

(** The result of an arithmetic operation on [int]s; [None] tells that
    it overflows. *)
Definition int_of (v : Z) : option Z :=
  if (int_min <=? v)%Z && (v <=? int_max)%Z then Some v else None.

Record state : Type := mkState {
  accumulator : Z;
  memory : list Z;
  pc : Z;
}.

(** What the program prints. *)
Inductive event : Set :=
  | PcOutOfBounds
  | Prompt
  | ScanfError
  | InvalidInput
  | Output (value : Z)
  | InvalidInstruction (instruction address : Z).

Inductive fault : Set :=
  | OutOfBounds
  | Overflow.

(** How one turn of the loop ends: with [running] still 1, with
    [running = 0] (the program then returns 0), in [exit(1)], or in
    undefined behaviour. *)
Inductive outcome : Type :=
  | Continue (st : state)
  | Return0 (st : state)
  | Exit1
  | Undefined (why : fault).

(** [memory[i]], read; [None] outside the 100 elements. *)
Definition load (mem : list Z) (i : Z) : option Z :=
  if (0 <=? i)%Z && (i <? 100)%Z then mem !! Z.to_nat i else None.

(** [memory[i] = v] *)
Definition store (mem : list Z) (i v : Z) : option (list Z) :=
  if (0 <=? i)%Z && (i <? 100)%Z && (Z.to_nat i <? length mem)
  then Some (<[Z.to_nat i := v]> mem)
  else None.

(** One turn of the [while] loop. C's [/] and [%] round towards zero. *)
Definition step (st : state) (inputs : list (option Z))
    : outcome * list event * list (option Z) :=
  if (100 <=? pc st)%Z then (Exit1, [PcOutOfBounds], inputs)
  else
    match load (memory st) (pc st) with
    | None => (Undefined OutOfBounds, [], inputs)
    | Some word =>
        let instruction := (word ÷ 100)%Z in
        let operand := Z.rem word 100 in
        let pc := (pc st + 1)%Z in
        match instruction with
        | 0%Z =>
            (Return0 (mkState (accumulator st) (memory st) pc), [], inputs)
        | 1%Z =>
            match load (memory st) operand with
            | None => (Undefined OutOfBounds, [], inputs)
            | Some m =>
                match int_of (accumulator st + m) with
                | None => (Undefined Overflow, [], inputs)
                | Some sum =>
                    (Continue (mkState (Z.rem sum 1000) (memory st) pc),
                     [], inputs)
                end
            end
        | 2%Z =>
            match load (memory st) operand with
            | None => (Undefined OutOfBounds, [], inputs)
            | Some m =>
                match int_of (accumulator st - m) with
                | None => (Undefined Overflow, [], inputs)
                | Some difference =>
                    (Continue (mkState (if (difference <? 0)%Z then 0%Z
                                        else difference)
                                 (memory st) pc),
                     [], inputs)
                end
            end
        | 3%Z =>
            match store (memory st) operand (accumulator st) with
            | None => (Undefined OutOfBounds, [], inputs)
            | Some mem => (Continue (mkState (accumulator st) mem pc), [], inputs)
            end
        | 4%Z =>
            match load (memory st) operand with
            | None => (Undefined OutOfBounds, [], inputs)
            | Some m =>
                match int_of (accumulator st * m) with
                | None => (Undefined Overflow, [], inputs)
                | Some product =>
                    (Continue (mkState (Z.rem product 1000) (memory st) pc),
                     [], inputs)
                end
            end
        | 5%Z =>
            match load (memory st) operand with
            | None => (Undefined OutOfBounds, [], inputs)
            | Some m => (Continue (mkState m (memory st) pc), [], inputs)
            end
        | 6%Z =>
            (Continue (mkState (accumulator st) (memory st) operand), [], inputs)
        | 7%Z =>
            (Continue (mkState (accumulator st) (memory st)
                         (if (accumulator st =? 0)%Z then operand else pc)),
             [], inputs)
        | 8%Z =>
            (Continue (mkState (accumulator st) (memory st)
                         (if (0 <=? accumulator st)%Z then operand else pc)),
             [], inputs)
        | 9%Z =>
            if (operand =? 1)%Z then
              match inputs with
              | Some input_value :: inputs =>
                  if (input_value <? 0)%Z || (999 <? input_value)%Z then
                    (Continue (mkState 0 (memory st) pc),
                     [Prompt; InvalidInput], inputs)
                  else
                    (Continue (mkState input_value (memory st) pc),
                     [Prompt], inputs)
              | None :: inputs => (Exit1, [Prompt; ScanfError], inputs)
              | [] => (Exit1, [Prompt; ScanfError], [])
              end
            else if (operand =? 2)%Z then
              (Continue (mkState (accumulator st) (memory st) pc),
               [Output (accumulator st)], inputs)
            else
              (Continue (mkState (accumulator st) (memory st) pc), [], inputs)
        | _ =>
            (Exit1, [InvalidInstruction instruction (pc - 1)], inputs)
        end
    end.

(** At most [turns] turns of the loop. *)
Fixpoint run (turns : nat) (st : state) (inputs : list (option Z))
    : outcome * list event * list (option Z) :=
  match turns with
  | O => (Continue st, [], inputs)
  | S turns =>
      match step st inputs with
      | (Continue st, events, inputs) =>
          let '(out, events', inputs) := run turns st inputs in
          (out, events ++ events', inputs)
      | end_of_run => end_of_run
      end
  end.

(** The statements [memory[i] = value;], in their order, on the array
    as it stands; [None] when one of them has no defined meaning. *)
Fixpoint initialize (slots : list (nat * Z)) (mem : list Z)
    : option (list Z) :=
  match slots with
  | [] => Some mem
  | (i, value) :: slots =>
      match int_of value with
      | Some value =>
          if i <? length mem then initialize slots (<[i := value]> mem)
          else None
      | None => None
      end
  end.

End Machine.

(** The state in which the loop of the emitted program starts, for the
    memory of the assembler that emitted it: [accumulator = 0],
    [memory[100] = {0}] with the initializers applied, [pc = 0]. *)
Definition boot (self : LMCAssembler) : option Machine.state :=
  mem ← Machine.initialize (set_slots 0 (memory self)) (replicate 100 0%Z);
  Some (Machine.mkState 0 mem 0).

(** Words and states within the three decimal digits of the machine. *)
Definition small (v : Z) : Prop := (0 ≤ v ≤ 999)%Z.

Definition tidy (st : Machine.state) : Prop :=
  length (Machine.memory st) = 100 ∧
  small (Machine.accumulator st) ∧
  Forall small (Machine.memory st) ∧
  (0 ≤ Machine.pc st ≤ 100)%Z.

(** A loop that subtracts a negative number, and the array with which
    its program starts. *)
Definition growing : list string :=
  ["loop: SUB step"; "BRA loop"; "step: DAT -999"].

Definition growing_memory : list Z :=
  [202; 600; -999]%Z ++ replicate 97 0%Z.

(** * Verification *)

Local Arguments String.eqb : simpl never.
Local Arguments INSTRUCTIONS_get : simpl never.
Local Arguments is_io_or_halt : simpl never.
Local Arguments parse_line : simpl never.

Local Ltac step_raises := left; eexists; split; [reflexivity | eauto].
Local Ltac step_emits := right; eexists _, _; reflexivity.

(** Decide a boolean range test from the range itself. *)
Local Ltac in_range a lo hi :=
  replace (negb ((lo <=? a)%Z && (a <=? hi)%Z)) with false
    by (symmetry; apply negb_false_iff, andb_true_iff; lia).
Local Ltac out_of_range a lo hi :=
  replace (negb ((lo <=? a)%Z && (a <=? hi)%Z)) with true
    by (symmetry; apply negb_true_iff, andb_false_iff; lia).

(** ** Sequencing *)

Section Sequencing.

Context {A B : Type}.
Variables (r : result A) (k : A → result B).

Lemma bind_Ok (b : B) : (r ≫= k) = Ok b ↔ ∃ a, r = Ok a ∧ k a = Ok b.
Proof.
  destruct r as [a|e]; simpl; split.
  - intros H. exists a. done.
  - intros (a' & [= <-] & H). done.
  - done.
  - intros (a' & [=] & _).
Qed.

Lemma bind_Raise (e : exn) :
  (r ≫= k) = Raise e ↔ r = Raise e ∨ ∃ a, r = Ok a ∧ k a = Raise e.
Proof.
  destruct r as [a|e']; simpl; split.
  - intros H. right. exists a. done.
  - intros [[=]|(a' & [= <-] & H)]. done.
  - intros [= ->]. by left.
  - intros [[= ->]|(a' & [=] & _)]. done.
Qed.

End Sequencing.

(** ** The line parser *)

(** The line number only serves diagnostics. *)
Lemma parse_line_line_number line n m : parse_line line n = parse_line line m.
Proof. reflexivity. Qed.

Lemma opt_eqb_true o s : opt_eqb o s = true ↔ o = Some s.
Proof.
  destruct o as [s'|]; simpl; [|done].
  rewrite String.eqb_eq. split; [by intros -> | by intros [= ->]].
Qed.

(** ** Pass 1 *)

(** Both address branches of [first_pass] amount to one test. *)
Lemma first_pass_address instruction (address : nat) :
  (if Py.truthy instruction && negb (opt_eqb instruction "DAT") then address + 1
   else if opt_eqb instruction "DAT" then address + 1 else address)
  = address + (if Py.truthy instruction then 1 else 0).
Proof.
  destruct (opt_eqb instruction "DAT") eqn:E.
  - apply opt_eqb_true in E as ->. simpl. done.
  - rewrite andb_true_r. destruct (Py.truthy instruction); simpl; lia.
Qed.

Lemma first_pass_step_Ok ln line a (L : gmap string nat) a' L' :
  first_pass_step ln line (a, L) = Ok (a', L') ↔
  a' = a + (if mnemonic_bearing line then 1 else 0) ∧
  match label_of line with
  | Some lab => L !! lab = None ∧ L' = <[lab := a]> L
  | None => L' = L
  end.
Proof.
  unfold first_pass_step, mnemonic_bearing, label_of, instruction_of.
  rewrite (parse_line_line_number line (ln + 1) 0).
  destruct (parse_line line 0) as [[lab instr] operand]; simpl.
  rewrite first_pass_address.
  destruct lab as [[|c s]|]; simpl.
  - split; [intros [= <- <-]; done | intros [-> ->]; done].
  - destruct (L !! String c s) eqn:E; simpl.
    + split; [done | intros [_ [[=] _]]].
    + split; [intros [= <- <-]; done | intros [-> [_ ->]]; done].
  - split; [intros [= <- <-]; done | intros [-> ->]; done].
Qed.

(** The only exception of pass 1 is [DuplicateLabelError], with the
    1-based number of the line that repeats a label. *)
Lemma first_pass_step_Raise ln line a (L : gmap string nat) e :
  first_pass_step ln line (a, L) = Raise e ↔
  e = AssemblyError DuplicateLabelError (ln + 1) ∧
  ∃ lab, label_of line = Some lab ∧ is_Some (L !! lab).
Proof.
  unfold first_pass_step, label_of.
  rewrite (parse_line_line_number line (ln + 1) 0).
  destruct (parse_line line 0) as [[lab instr] operand]; simpl.
  destruct lab as [[|c s]|]; simpl.
  - split; [done | intros [_ (lab & [=] & _)]].
  - destruct (L !! String c s) eqn:E; simpl.
    + split; [intros [= <-]; split; [done|]; eauto |].
      intros [-> _]. done.
    + split; [done | intros [_ (lab & [= <-] & [x Hx])]; congruence].
  - split; [done | intros [_ (lab & [=] & _)]].
Qed.

(** Pass 1 counts the mnemonic-bearing lines, keeps what the table
    held, and records each label at the count of the mnemonic-bearing
    lines before its line; every key comes from the old table or from a
    line that defines it. *)
Lemma first_pass_loop_Ok lines ln a (L : gmap string nat) a' L' :
  first_pass_loop lines ln (a, L) = Ok (a', L') →
  a' = a + mnemonic_lines lines ∧
  L ⊆ L' ∧
  (∀ pre line post lab,
      lines = pre ++ line :: post → label_of line = Some lab →
      L' !! lab = Some (a + mnemonic_lines pre)) ∧
  (∀ lab, is_Some (L' !! lab) →
      is_Some (L !! lab) ∨ ∃ line, line ∈ lines ∧ label_of line = Some lab).
Proof.
  revert ln a L. induction lines as [|l lines IH]; intros ln a L; simpl.
  - intros [= <- <-]. split_and!; [lia | done | | by left].
    intros [|??] ????; done.
  - intros H. apply bind_Ok in H as ([a1 L1] & Hstep & Hloop).
    apply first_pass_step_Ok in Hstep as [-> Hlab].
    apply IH in Hloop as (-> & Hsub & Hdef & Hdom).
    assert (L ⊆ L1) as HL.
    { destruct (label_of l); [|by subst].
      destruct Hlab as [Hnone ->]. by apply insert_subseteq. }
    split_and!.
    + lia.
    + by trans L1.
    + intros [|l0 pre] line post lab Heq Hl; simplify_eq/=.
      * rewrite Hl in Hlab. destruct Hlab as [_ ->].
        rewrite Nat.add_0_r. eapply lookup_weaken; [|done].
        by rewrite lookup_insert_eq.
      * rewrite (Hdef pre line post lab eq_refl Hl). f_equal. lia.
    + intros lab Hsome. destruct (Hdom lab Hsome) as [HL1|(line & Hin & Hl)].
      * destruct (label_of l) as [lab'|] eqn:E; [|subst; by left].
        destruct Hlab as [_ ->].
        destruct (decide (lab' = lab)) as [->|Hne].
        -- right. exists l. split; [left | done].
        -- left. by rewrite lookup_insert_ne in HL1.
      * right. exists line. split; [by right | done].
Qed.


Lemma first_pass_Ok self0 lines self1 :
  first_pass self0 lines = Ok self1 ↔
  ∃ a, first_pass_loop lines 0 (0, labels self0) = Ok (a, labels self1) ∧
       memory_size self1 = memory_size self0 ∧ memory self1 = memory self0.
Proof.
  unfold first_pass. rewrite bind_Ok. split.
  - intros ([a L] & Hloop & [= <-]). simpl. eauto.
  - intros (a & Hloop & Hsize & Hmem). exists (a, labels self1).
    split; [done|]. destruct self1. simpl in *. by subst.
Qed.


(** After pass 1 on a fresh assembler the keys of the table are the
    labels that the lines define, as they are written. *)
Lemma first_pass_keys lines self1 lab :
  first_pass new lines = Ok self1 →
  is_Some (labels self1 !! lab) ↔
  ∃ line, line ∈ lines ∧ label_of line = Some lab.
Proof.
  intros (a & Hfp & _)%first_pass_Ok.
  apply first_pass_loop_Ok in Hfp as (_ & _ & Hdef & Hdom). split.
  - intros [H|H]%Hdom; [|done]. simpl in H. rewrite lookup_empty in H.
    by destruct H.
  - intros (line & (pre & post & ->)%list_elem_of_split & Hlab).
    rewrite (Hdef pre line post lab eq_refl Hlab). eauto.
Qed.

(** ** Numerals *)

Lemma digit_not_underscore base c :
  base ≤ 36 → (Py.digit_value c <? base) = true → Py.is_underscore c = false.
Proof.
  intros Hb Hd. apply Nat.ltb_lt in Hd.
  unfold Py.is_underscore. destruct (nat_of_ascii c =? 95) eqn:E; [|done].
  apply Nat.eqb_eq in E. unfold Py.digit_value in Hd. rewrite E in Hd.
  simpl in Hd. lia.
Qed.

Lemma scan_digits_numeral base acc n s :
  base ≤ 36 → all_digits base s = true →
  Py.scan_digits base false acc n s =
    Some (numeral_value base acc s, n + String.length s, EmptyString).
Proof.
  intros Hb. revert acc n. induction s as [|c s IH]; intros acc n Hs; simpl.
  - by rewrite Nat.add_0_r.
  - simpl in Hs. apply andb_true_iff in Hs as [Hc Hs].
    rewrite (digit_not_underscore base c Hb Hc), Hc, IH by done.
    do 3 f_equal. lia.
Qed.

Lemma digit_value_bound c base :
  (Py.digit_value c <? base) = true → base ≤ 36 →
  (48 ≤ nat_of_ascii c ≤ 57 ∨ 65 ≤ nat_of_ascii c ≤ 90 ∨ 97 ≤ nat_of_ascii c ≤ 122).
Proof.
  intros Hd Hb. apply Nat.ltb_lt in Hd. unfold Py.digit_value in Hd.
  repeat case_match; try lia;
    repeat match goal with
           | H : (_ && _) = true |- _ => apply andb_true_iff in H as [??]
           | H : (_ <=? _) = true |- _ => apply Nat.leb_le in H
           end; lia.
Qed.


Lemma int_decimal_numeral s :
  numeral 10 s → Py.int 10 s = Some (numeral_value 10 0 s).
Proof.
  intros [Hne Hs].
  destruct s as [|c s]; [done|]. clear Hne.
  pose proof Hs as Hs'. simpl in Hs'. apply andb_true_iff in Hs' as [Hc _].
  pose proof (digit_not_underscore 10 c ltac:(lia) Hc) as Hu.
  pose proof (digit_value_bound c 10 Hc ltac:(lia)) as Hrange.
  unfold Py.int.
  assert (Py.skip_space (String c s) = String c s) as ->.
  { simpl. unfold Py.c_isspace.
    replace ((9 <=? nat_of_ascii c) && (nat_of_ascii c <=? 13)
             || (nat_of_ascii c =? 32)) with false; [done|].
    symmetry. apply orb_false_iff. split.
    - apply andb_false_iff. right. apply Nat.leb_gt. lia.
    - apply Nat.eqb_neq. lia. }
  assert (Py.read_sign (String c s) = (1%Z, String c s)) as ->.
  { simpl. replace (nat_of_ascii c =? 43) with false
      by (symmetry; apply Nat.eqb_neq; lia).
    replace (nat_of_ascii c =? 45) with false
      by (symmetry; apply Nat.eqb_neq; lia). done. }
  assert (Py.skip_radix_prefix 10 (String c s) = String c s) as ->.
  { unfold Py.skip_radix_prefix. destruct s as [|c1 s]; [done|].
    change (10 =? 16) with false. change (10 =? 8) with false.
    change (10 =? 2) with false. simpl. by rewrite andb_false_r. }
  rewrite Hu, (scan_digits_numeral 10 0 0) by (done || lia).
  cbn [Nat.add String.length Nat.eqb Py.skip_space].
  f_equal. lia.
Qed.






Lemma parse_operand_literal token n :
  parse_operand token n =
  match literal_value token with
  | Some v => Ok v
  | None => Raise (AssemblyError InvalidOperandError (n + 1))
  end.
Proof.
  unfold parse_operand, literal_value, radix_of.
  destruct (Py.startswith "0x" token); [done|].
  by destruct (Py.startswith "0b" token).
Qed.

(** *** One line *)

(** *** Printed numbers *)

Lemma pretty_N_go_digits (x : N) s :
  all_digits 10 s = true → all_digits 10 (pretty_N_go x s) = true.
Proof.
  revert s. induction (N.lt_wf_0 x) as [x _ IH]; intros s Hs.
  destruct (decide (x = 0)%N) as [->|Hx]; [by rewrite pretty_N_go_0|].
  rewrite pretty_N_go_step by lia. apply IH.
  - apply N.div_lt; lia.
  - simpl. rewrite Hs, andb_true_r. unfold pretty_N_char.
    by repeat case_match.
Qed.

Lemma pretty_N_go_nonempty (x : N) s :
  s ≠ EmptyString → pretty_N_go x s ≠ EmptyString.
Proof.
  revert s. induction (N.lt_wf_0 x) as [x _ IH]; intros s Hs.
  destruct (decide (x = 0)%N) as [->|Hx]; [by rewrite pretty_N_go_0|].
  rewrite pretty_N_go_step by lia. apply IH; [apply N.div_lt; lia | done].
Qed.

Lemma pretty_N_numeral (x : N) : numeral 10 (pretty x).
Proof.
  unfold pretty, pretty_N. case_decide as Hx; [done|]. split.
  - rewrite pretty_N_go_step by lia. by apply pretty_N_go_nonempty.
  - by apply pretty_N_go_digits.
Qed.

(** A printed natural number is a decimal numeral. *)
Lemma str_nat_numeral (n : nat) : numeral 10 (Py.str (Z.of_nat n)).
Proof.
  unfold Py.str, pretty, pretty_Z. destruct (Z.of_nat n) as [|p|p] eqn:E.
  - done.
  - apply pretty_N_numeral.
  - lia.
Qed.



Lemma numeral_app base s t : numeral base s → numeral base t → numeral base (s +:+ t).
Proof.
  intros [Hne Hs] [_ Ht]. split; [by destruct s|].
  clear Hne. induction s as [|c s IH]; [done|]. simpl in *.
  apply andb_true_iff in Hs as [-> Hs]. by apply IH.
Qed.

Lemma zeros_digits n : all_digits 10 (Py.zeros n) = true.
Proof. induction n as [|n IH]; [done | by simpl]. Qed.

(** Padding a decimal numeral with zeros leaves a decimal numeral. *)
Lemma zfill_numeral width s : numeral 10 s → numeral 10 (Py.zfill width s).
Proof.
  intros Hs. unfold Py.zfill. case_match; [done|].
  destruct s as [|c s]; [by destruct Hs|].
  assert (nat_of_ascii c ≠ 43 ∧ nat_of_ascii c ≠ 45) as [H43 H45].
  { destruct Hs as [_ [Hc _]%andb_true_iff].
    pose proof (digit_value_bound c 10 Hc ltac:(lia)). lia. }
  apply Nat.eqb_neq in H43, H45. rewrite H43, H45. simpl.
  destruct (width - S (String.length s)) as [|k] eqn:E; [done|].
  apply (numeral_app 10 (Py.zeros (S k)) (String c s)); [|done].
  split; [done | apply zeros_digits].
Qed.

(** The opcodes of the table are decimal numerals. *)
Lemma INSTRUCTIONS_get_numeral instruction opcode :
  INSTRUCTIONS_get instruction = Some opcode → numeral 10 opcode.
Proof.
  unfold INSTRUCTIONS_get.
  destruct (INSTRUCTIONS !! instruction) as [o|] eqn:E; [|done].
  simpl. intros ->. apply elem_of_list_to_map_2 in E.
  repeat match goal with
         | H : _ ∈ _ :: _ |- _ => apply elem_of_cons in H as [H|H]
         | H : (_, _) = (_, _) |- _ => injection H as _ H; try discriminate
         | H : opcode = _ |- _ => subst opcode
         | H : _ = opcode |- _ => subst opcode
         | H : _ ∈ [] |- _ => by apply elem_of_nil in H
         end; done.
Qed.

(** [int] never fails where the assembler leaves its [ValueError]
    uncaught: on an opcode, and on an opcode followed by a printed
    label address. *)
Lemma int_or_raise_numeral s :
  numeral 10 s → int_or_raise s = Ok (numeral_value 10 0 s).
Proof. intros Hs. unfold int_or_raise. by rewrite int_decimal_numeral. Qed.

(** ** Pass 2 *)

Section Emit.

Variables (st : frame) (value : Z) (entry : string).

Lemma emit_Ok st' :
  emit st value entry = Ok st' ↔
  address st < length (memory (self st)) ∧ st' = emitted st value entry.
Proof.
  unfold emit, memory_setitem, emitted.
  destruct (address st <? length (memory (self st))) eqn:E; simpl.
  - apply Nat.ltb_lt in E. split; [intros [= <-]; done | intros [_ ->]; done].
  - apply Nat.ltb_ge in E. split; [done | intros [? _]; lia].
Qed.

Lemma emit_Raise e :
  emit st value entry = Raise e ↔
  length (memory (self st)) ≤ address st ∧ e = IndexError.
Proof.
  unfold emit, memory_setitem.
  destruct (address st <? length (memory (self st))) eqn:E; simpl.
  - apply Nat.ltb_lt in E. split; [done | intros [? _]; lia].
  - apply Nat.ltb_ge in E. split; [intros [= <-]; done | intros [_ ->]; done].
Qed.

Lemma emitted_lookup :
  address st < length (memory (self st)) →
  memory (self (emitted st value entry)) !! address st = Some (Some value).
Proof. intros H. simpl. by apply list_lookup_insert_eq. Qed.

End Emit.

Lemma parse_operand_Raise operand n e :
  parse_operand operand n = Raise e → e = AssemblyError InvalidOperandError (n + 1).
Proof. unfold parse_operand. case_match; [done | by intros [= <-]]. Qed.

(** What a step of pass 2 does: nothing on a line without mnemonic;
    otherwise it raises before the store or ends in [emit], with an
    entry that starts with the current address. *)
Lemma assemble_step_cases ln line st :
  (mnemonic_bearing line = false ∧ assemble_step ln line st = Ok st) ∨
  (mnemonic_bearing line = true ∧
   ((∃ e, assemble_step ln line st = Raise e ∧ before_store ln e) ∨
    (∃ value text,
        assemble_step ln line st =
        emit st value (Py.format_02d (address st) +:+ ": " +:+ text)))).
Proof.
  unfold assemble_step, mnemonic_bearing, instruction_of.
  rewrite (parse_line_line_number line (ln + 1) 0).
  destruct (parse_line line 0) as [[lab instr] operand]; simpl.
  destruct instr as [[|c instr]|]; simpl; [by left | | by left].
  right. split; [done|].
  assert (before_store ln (AssemblyError OperandRangeError (ln + 1)) ∧
          before_store ln (AssemblyError InvalidOperandError (ln + 1)) ∧
          before_store ln (AssemblyError InvalidInstructionError (ln + 1)))
    as (Hrange & Hoperand & Hinstr).
  { split_and!; eexists _, (ln + 1); split_and!; done || by left. }
  assert (∀ o e, parse_operand o (ln + 1) = Raise e → before_store ln e) as Hpo.
  { intros o e ->%parse_operand_Raise.
    exists InvalidOperandError, (ln + 1 + 1). split_and!; [done..|].
    right. split; [done | lia]. }
  destruct (String.eqb (String c instr) "DAT").
  - destruct operand as [o|]; simpl.
    + destruct (parse_operand o (ln + 1)) as [v|e] eqn:E; simpl.
      * destruct (negb _); [step_raises | step_emits].
      * step_raises.
    + step_emits.
  - destruct (INSTRUCTIONS_get (String c instr)) as [opcode|] eqn:Hget;
      [|step_raises].
    apply INSTRUCTIONS_get_numeral in Hget.
    destruct (is_io_or_halt (String c instr)).
    + rewrite int_or_raise_numeral by done. step_emits.
    + destruct operand as [o|]; [|step_raises].
      destruct (labels (self st) !! o) as [a|]; simpl.
      * rewrite int_or_raise_numeral
          by (apply numeral_app, zfill_numeral, str_nat_numeral; done).
        step_emits.
      * destruct (parse_operand o (ln + 1)) as [v|e] eqn:E; simpl; [|step_raises].
        destruct (negb _) eqn:Hr; simpl; [step_raises|].
        apply negb_false_iff, andb_true_iff in Hr as [Hlo Hhi].
        apply Z.leb_le in Hlo, Hhi.
        rewrite <-(Z2Nat.id v) by done.
        rewrite int_or_raise_numeral
          by (apply numeral_app, zfill_numeral, str_nat_numeral; done).
        step_emits.
Qed.

(** A successful step leaves the label table and the size of the
    memory alone, and writes at most the cell of the current address. *)
Lemma assemble_step_Ok ln line st st' :
  assemble_step ln line st = Ok st' →
  (mnemonic_bearing line = false ∧ st' = st) ∨
  (mnemonic_bearing line = true ∧ address st < length (memory (self st)) ∧
   ∃ value text,
     assemble_step ln line st =
       emit st value (Py.format_02d (address st) +:+ ": " +:+ text) ∧
     st' = emitted st value (Py.format_02d (address st) +:+ ": " +:+ text)).
Proof.
  intros H.
  destruct (assemble_step_cases ln line st)
    as [[Hm Hs]|[Hm [(e & Hs & _)|(v & t & Hs)]]].
  - left. split; [done | congruence].
  - congruence.
  - right. split; [done|]. rewrite Hs in H. apply emit_Ok in H as [Hlt ->]. eauto.
Qed.


Section Loops.

Variables (pre post : list string).

Lemma assemble_loop_app ln st :
  assemble_loop (pre ++ post) ln st =
  assemble_loop pre ln st ≫= assemble_loop post (ln + length pre).
Proof.
  revert ln st. induction pre as [|l pre' IH]; intros ln st; simpl.
  - by rewrite Nat.add_0_r.
  - destruct (assemble_step ln l st) as [st1|e]; simpl; [|done].
    rewrite IH. by replace (S ln + length pre') with (ln + S (length pre')) by lia.
Qed.

End Loops.

(** The invariant of the loop of pass 2. *)
Lemma assemble_loop_Ok lines ln st st' :
  assemble_loop lines ln st = Ok st' →
  labels (self st') = labels (self st) ∧
  length (memory (self st')) = length (memory (self st)) ∧
  address st' = address st + mnemonic_lines lines ∧
  (∀ i, i < address st → memory (self st') !! i = memory (self st) !! i) ∧
  (∃ entries, machine_code st' = machine_code st ++ entries ∧
              length entries = mnemonic_lines lines).
Proof.
  revert ln st. induction lines as [|l lines IH]; intros ln st; simpl.
  - intros [= <-]. split_and!; [done | done | lia | done |].
    exists []. by rewrite app_nil_r.
  - intros H. apply bind_Ok in H as (st1 & Hstep & Hloop).
    apply IH in Hloop as (HL & Hlen & Ha & Hlow & entries & Hmc & Hn).
    apply assemble_step_Ok in Hstep as [[-> ->]|(-> & Hlt & v & t & _ & ->)].
    + split_and!; [done..|]. eauto.
    + simpl in *. rewrite length_insert in Hlen.
      split_and!; [done | done | lia | |].
      * intros i Hi. rewrite Hlow by lia. apply list_lookup_insert_ne. lia.
      * eexists (_ :: entries). rewrite Hmc, <-app_assoc. simpl.
        split; [done | by rewrite Hn].
Qed.

Lemma assemble_Ok self0 lines self' mc cc :
  assemble self0 lines = Ok (self', (mc, cc)) ↔
  ∃ self1 st,
    first_pass self0 lines = Ok self1 ∧
    assemble_loop lines 0 (start self1) = Ok st ∧
    self' = self st ∧ mc = machine_code st ∧ cc = generate_c_code (self st).
Proof.
  unfold assemble. rewrite bind_Ok. split.
  - intros (self1 & H1 & H2). apply bind_Ok in H2 as (st & H2 & [= <- <- <-]).
    exists self1, st. done.
  - intros (self1 & st & H1 & H2 & -> & -> & ->). exists self1. split; [done|].
    apply bind_Ok. exists st. done.
Qed.

(** A successful translation, seen from one of its lines: the frame in
    which pass 2 reaches the line, and what becomes of the word that the
    line emits. *)
Lemma assemble_run self0 pre line post self' mc cc :
  assemble self0 (pre ++ line :: post) = Ok (self', (mc, cc)) →
  ∃ self1 st,
    first_pass self0 (pre ++ line :: post) = Ok self1 ∧
    assemble_loop pre 0 (start self1) = Ok st ∧
    labels (self st) = labels self' ∧
    address st = mnemonic_lines pre ∧
    (∃ st2, assemble_step (length pre) line st = Ok st2) ∧
    (∀ lab, label_of line = Some lab →
            labels self' !! lab = Some (mnemonic_lines pre)) ∧
    (∀ value entry,
        assemble_step (length pre) line st = emit st value entry →
        assemble_step (length pre) line st = Ok (emitted st value entry) ∧
        memory self' !! mnemonic_lines pre = Some (Some value) ∧
        mc !! mnemonic_lines pre = Some entry).
Proof.
  intros H.
  apply assemble_Ok in H as (self1 & st' & H1 & H2 & -> & -> & _).
  pose proof H1 as (a & Hfp & _ & Hmem)%first_pass_Ok.
  apply first_pass_loop_Ok in Hfp as (_ & _ & Hdef & _).
  rewrite assemble_loop_app in H2. apply bind_Ok in H2 as (st & Hpre & Hrest).
  simpl in Hrest. apply bind_Ok in Hrest as (st2 & Hstep & Hpost).
  pose proof (assemble_loop_Ok _ _ _ _ Hpre) as (HL & _ & Ha & _ & entries & Hmc & Hn).
  pose proof (assemble_loop_Ok _ _ _ _ Hpost) as (HL' & _ & _ & Hlow & entries' & Hmc' & _).
  simpl in Ha, Hmc.
  assert (labels (self st2) = labels (self st)) as HL2.
  { apply assemble_step_Ok in Hstep as [[_ ->]|(_ & _ & v & t & _ & ->)]; done. }
  exists self1, st. split_and!; [done | done | congruence | done | eauto | |].
  - intros lab Hlab. rewrite HL', HL2, HL. simpl.
    by rewrite (Hdef pre line post lab eq_refl Hlab).
  - intros value entry Hs. rewrite Hs in Hstep.
    apply emit_Ok in Hstep as [Hlt ->]. rewrite <-Ha. split_and!.
    + rewrite Hs. by apply emit_Ok.
    + rewrite Hlow by (simpl; lia). by apply emitted_lookup.
    + rewrite Hmc'. simpl. rewrite Hmc, Ha, <-Hn.
      rewrite <-app_assoc. by apply list_lookup_middle.
Qed.

(** C1. Whenever a translation succeeds, pass 2 reaches each line with
    the complete label table and with the address counter at the
    number of mnemonic-bearing lines before it; a mnemonic-bearing
    line gets its word and its listing entry at exactly that address;
    and a label that the line defines maps to that same address,
    wherever the label is used. *)
Theorem address_assignment self0 lines self' mc cc :
  assemble self0 lines = Ok (self', (mc, cc)) →
  ∀ pre line post, lines = pre ++ line :: post →
    (∃ self1 st,
        first_pass self0 lines = Ok self1 ∧
        assemble_loop pre 0 (start self1) = Ok st ∧
        labels (self st) = labels self' ∧
        address st = mnemonic_lines pre ∧
        (mnemonic_bearing line = true →
         ∃ value text,
           assemble_step (length pre) line st =
             Ok (emitted st value
                   (Py.format_02d (mnemonic_lines pre) +:+ ": " +:+ text)) ∧
           memory self' !! mnemonic_lines pre = Some (Some value) ∧
           mc !! mnemonic_lines pre =
             Some (Py.format_02d (mnemonic_lines pre) +:+ ": " +:+ text))) ∧
    (∀ lab, label_of line = Some lab →
            labels self' !! lab = Some (mnemonic_lines pre)).
Proof.
  intros H pre line post ->.
  destruct (assemble_run _ _ _ _ _ _ _ H)
    as (self1 & st & H1 & Hpre & HL & Ha & [st2 Hok] & Hlab & Hword).
  split; [|done].
  exists self1, st. split_and!; [done..|].
  intros Hm.
  destruct (assemble_step_cases (length pre) line st)
    as [[Hm' _]|[_ [(e & Hs & _)|(v & t & Hs)]]]; [congruence.. |].
  destruct (Hword _ _ Hs) as (Hok' & Hmem & Hmc). rewrite Ha in Hok', Hmc.
  exists v, t. done.
Qed.

(** ** The words *)

Lemma operand_mnemonic instr d :
  opcode_digit instr = Some d →
  (1 ≤ d ≤ 8)%Z ∧
  (∃ c s, instr = String c s) ∧
  String.eqb instr "DAT" = false ∧
  INSTRUCTIONS_get instr = Some (Py.str d) ∧
  is_io_or_halt instr = false.
Proof.
  unfold opcode_digit.
  repeat match goal with
         | |- context [String.eqb instr ?m] =>
             destruct (String.eqb_spec instr m) as [->|_];
             [intros [= <-]; split_and!;
              [lia | lia | eauto | vm_compute; reflexivity..] |]
         end.
  done.
Qed.

Lemma fixed_mnemonic instr w :
  fixed_code instr = Some w →
  (∃ c s, instr = String c s) ∧
  String.eqb instr "DAT" = false ∧
  INSTRUCTIONS_get instr = Some (Py.zfill 3 (Py.str w)) ∧
  is_io_or_halt instr = true ∧
  int_or_raise (Py.zfill 3 (Py.str w)) = Ok w.
Proof.
  unfold fixed_code.
  repeat match goal with
         | |- context [String.eqb instr ?m] =>
             destruct (String.eqb_spec instr m) as [->|_];
             [intros [= <-]; split_and!; [eauto | vm_compute; reflexivity..] |]
         end.
  done.
Qed.

(** [int(opcode + str(a).zfill(2))] is [opcode * 100 + a] for a
    two-digit address: all 8 * 100 cases are evaluated. *)
Lemma encode_word d a :
  (1 ≤ d ≤ 8)%Z → (0 ≤ a ≤ 99)%Z →
  int_or_raise (Py.str d +:+ Py.zfill 2 (Py.str a)) = Ok (d * 100 + a)%Z.
Proof.
  intros Hd Ha.
  set (check := λ (d : Z) (n : nat),
         match Py.int 10 (Py.str d +:+ Py.zfill 2 (Py.str (Z.of_nat n))) with
         | Some w => (w =? d * 100 + Z.of_nat n)%Z
         | None => false
         end).
  assert (forallb (λ k, forallb (check (Z.of_nat k)) (seq 0 100)) (seq 1 8) = true)
    as Hall by (vm_compute; reflexivity).
  rewrite forallb_forall in Hall.
  specialize (Hall (Z.to_nat d)). rewrite Z2Nat.id in Hall by lia.
  assert (In (Z.to_nat d) (seq 1 8)) as Hin by (apply in_seq; lia).
  apply Hall in Hin. rewrite forallb_forall in Hin.
  specialize (Hin (Z.to_nat a)).
  assert (In (Z.to_nat a) (seq 0 100)) as Hin' by (apply in_seq; lia).
  apply Hin in Hin'. unfold check in Hin'. rewrite Z2Nat.id in Hin' by lia.
  unfold int_or_raise.
  destruct (Py.int _ _) as [w|]; [|done].
  apply Z.eqb_eq in Hin'. by subst.
Qed.

(** The claims about one line share its parse. *)
Section Line.

Variables (ln : nat) (line : string).
Variables (lab : option string) (instr : string) (operand : option string).
Hypothesis Hparse : parse_line line (ln + 1) = (lab, Some instr, operand).


Lemma step_operand_label st d o n :
  opcode_digit instr = Some d → operand = Some o →
  labels (self st) !! o = Some n →
  assemble_step ln line st =
    int_or_raise (Py.str d +:+ Py.zfill 2 (Py.str (Z.of_nat n))) ≫=
      λ word, emit st word (listing_entry (address st) word).
Proof.
  intros (_ & (c & s & ->) & Hdat & Hget & Hio)%operand_mnemonic -> Hl.
  unfold assemble_step. by rewrite Hparse, Hdat, Hget, Hio, Hl.
Qed.

Lemma step_operand_literal st d o :
  opcode_digit instr = Some d → operand = Some o →
  labels (self st) !! o = None →
  match literal_value o with
  | Some a =>
      if decide (0 ≤ a ≤ 99)%Z
      then assemble_step ln line st =
             emit st (d * 100 + a) (listing_entry (address st) (d * 100 + a))
      else assemble_step ln line st =
             Raise (AssemblyError OperandRangeError (ln + 1))
  | None =>
      ∃ n, assemble_step ln line st =
             Raise (AssemblyError InvalidOperandError n)
  end.
Proof.
  intros (Hd & (c & s & ->) & Hdat & Hget & Hio)%operand_mnemonic -> Hl.
  unfold assemble_step.
  rewrite Hparse, Hdat, Hget, Hio, Hl, parse_operand_literal.
  destruct (literal_value o) as [a|]; simpl; [|eauto].
  case_decide as Hr.
  - in_range a 0%Z 99%Z. simpl. by rewrite encode_word.
  - by out_of_range a 0%Z 99%Z.
Qed.

Lemma step_operand_resolved st d o a :
  opcode_digit instr = Some d → operand = Some o →
  resolves (labels (self st)) o ln a → (0 ≤ a ≤ 99)%Z →
  assemble_step ln line st =
    emit st (d * 100 + a) (listing_entry (address st) (d * 100 + a)).
Proof.
  intros Hd Ho Hres Ha. unfold resolves in Hres.
  destruct (labels (self st) !! o) as [n|] eqn:Hl.
  - rewrite (step_operand_label st d o n) by done.
    pose proof (operand_mnemonic _ _ Hd) as (Hd' & _).
    subst a. by rewrite encode_word.
  - pose proof (step_operand_literal st d o Hd Ho Hl) as Hstep.
    rewrite parse_operand_literal in Hres.
    destruct (literal_value o) as [a'|]; [|done].
    injection Hres as ->. by rewrite decide_True in Hstep.
Qed.

(** C2. A line with one of the eight operand mnemonics whose operand
    resolves, through the label table or as a literal, to an address
    [a] in 0..99 encodes to [digit * 100 + a]: its step ends in the
    store of that word at the current address, and in a translation
    that succeeds that word is what the memory holds, and the listing
    shows, at the address of the line. *)
Theorem instruction_word d o a :
  opcode_digit instr = Some d → operand = Some o → (0 ≤ a ≤ 99)%Z →
  (∀ st, resolves (labels (self st)) o ln a →
         assemble_step ln line st =
           emit st (d * 100 + a) (listing_entry (address st) (d * 100 + a))) ∧
  (∀ self0 pre post self' mc cc,
      ln = length pre →
      assemble self0 (pre ++ line :: post) = Ok (self', (mc, cc)) →
      resolves (labels self') o ln a →
      memory self' !! mnemonic_lines pre = Some (Some (d * 100 + a)%Z) ∧
      mc !! mnemonic_lines pre =
        Some (listing_entry (mnemonic_lines pre) (d * 100 + a))).
Proof.
  intros Hd Ho Ha. split.
  - intros st Hres. by apply (step_operand_resolved st d o a).
  - intros self0 pre post self' mc cc Hln Hrun Hres.
    destruct (assemble_run _ _ _ _ _ _ _ Hrun)
      as (self1 & st & _ & _ & HL & Haddr & _ & _ & Hword).
    rewrite <-HL in Hres.
    pose proof (step_operand_resolved st d o a Hd Ho Hres Ha) as Hstep.
    rewrite Hln, Haddr in Hstep.
    by destruct (Hword _ _ Hstep) as (_ & Hmem & Hmc).
Qed.

(** C5. A line whose mnemonic is [INP], [OUT] or [HLT] encodes to 901,
    902 or 0, whatever operand token the line has or lacks: its step is
    the store of that word at the current address -- no operand makes it
    raise -- and in a translation that succeeds that word is what the
    memory holds, and the listing shows, at the address of the line. *)
Theorem fixed_word w :
  fixed_code instr = Some w →
  (∀ st, assemble_step ln line st = emit st w (listing_entry (address st) w)) ∧
  (∀ self0 pre post self' mc cc,
      ln = length pre →
      assemble self0 (pre ++ line :: post) = Ok (self', (mc, cc)) →
      memory self' !! mnemonic_lines pre = Some (Some w) ∧
      mc !! mnemonic_lines pre = Some (listing_entry (mnemonic_lines pre) w)).
Proof.
  intros ((c & s & ->) & Hdat & Hget & Hio & Hint)%fixed_mnemonic.
  assert (∀ st, assemble_step ln line st = emit st w (listing_entry (address st) w))
    as Hstep.
  { intros st. unfold assemble_step. by rewrite Hparse, Hdat, Hget, Hio, Hint. }
  split; [done|].
  intros self0 pre post self' mc cc Hln Hrun.
  destruct (assemble_run _ _ _ _ _ _ _ Hrun)
    as (self1 & st & _ & _ & _ & Haddr & _ & _ & Hword).
  specialize (Hstep st). rewrite Hln, Haddr in Hstep.
  by destruct (Hword _ _ Hstep) as (_ & Hmem & Hmc).
Qed.



End Line.

(** ** The emitter *)

Lemma append_initializers_set_slots i cells c_code :
  append_initializers i cells c_code =
  c_code ++ map (λ iv, initializer_stmt iv.1 iv.2) (set_slots i cells).
Proof.
  revert i c_code. induction cells as [|[v|] cells IH]; intros i c_code; simpl.
  - by rewrite app_nil_r.
  - by rewrite IH, <-app_assoc.
  - by rewrite IH.
Qed.

Lemma elem_of_set_slots i cells j v :
  (j, v) ∈ set_slots i cells ↔ i ≤ j ∧ cells !! (j - i) = Some (Some v).
Proof.
  revert i. induction cells as [|[w|] cells IH]; intros i; simpl.
  - split; [by intros ?%elem_of_nil | by intros [_ ?]].
  - rewrite elem_of_cons, IH. split.
    + intros [[= -> ->]|[Hle Hl]].
      * split; [lia|]. by rewrite Nat.sub_diag.
      * split; [lia|]. by replace (j - i) with (S (j - S i)) by lia.
    + intros [Hle Hl]. destruct (decide (j = i)) as [->|Hne].
      * rewrite Nat.sub_diag in Hl. simpl in Hl. left. congruence.
      * right. split; [lia|].
        by replace (j - i) with (S (j - S i)) in Hl by lia.
  - rewrite IH. split.
    + intros [Hle Hl]. split; [lia|].
      by replace (j - i) with (S (j - S i)) by lia.
    + intros [Hle Hl]. destruct (decide (j = i)) as [->|Hne].
      * by rewrite Nat.sub_diag in Hl.
      * split; [lia|]. by replace (j - i) with (S (j - S i)) in Hl by lia.
Qed.



(** *** The printed statements are pairwise distinct *)









(** ** More lines than memory *)



(** ** Letter case *)

Lemma no_slash_app s t : no_slash (s +:+ t) = no_slash s && no_slash t.
Proof. induction s as [|c s IH]; simpl; [done|]. by rewrite IH, andb_assoc. Qed.

Lemma token_text_no_slash s : token_text s = true → no_slash s = true.
Proof.
  induction s as [|c s IH]; simpl; [done|].
  unfold token_char. intros [[_ ->]%andb_true_iff Hs]%andb_true_iff.
  by rewrite IH.
Qed.

Lemma token_text_no_space c s :
  token_text (String c s) = true → Py.isspace c = false ∧ token_text s = true.
Proof.
  simpl. unfold token_char.
  intros [[Hc _]%andb_true_iff Hs]%andb_true_iff.
  by apply negb_true_iff in Hc.
Qed.

(** A text without slash holds no comment. *)
Lemma re_sub_comment_no_slash s :
  no_slash s = true → Py.re_sub_comment s = s.
Proof.
  unfold Py.re_sub_comment. induction s as [|c s IH]; simpl; [done|].
  intros [Hc Hs]%andb_true_iff. apply negb_true_iff in Hc.
  rewrite Hc. simpl. rewrite IH by done. by destruct s.
Qed.

Lemma ends_in_token_cons c s : ends_in_token s → ends_in_token (String c s).
Proof.
  intros [Hne Hs]. split; [done|]. simpl. rewrite Hs. by destruct s.
Qed.

Lemma ends_in_token_token s : token s → ends_in_token s.
Proof.
  intros [Hne Hs]. induction s as [|c s IH]; [done|].
  apply token_text_no_space in Hs as [Hc Hs].
  destruct s as [|c' s].
  - split; [done|]. simpl. by rewrite Hc.
  - apply ends_in_token_cons, IH; done.
Qed.

Lemma ends_in_token_app s t : ends_in_token t → ends_in_token (s +:+ t).
Proof.
  intros Ht. induction s as [|c s IH]; [done|]. by apply ends_in_token_cons.
Qed.

Lemma re_split_ws_token_space t rest :
  token_text t = true →
  Py.re_split_ws_go false (t +:+ String " " rest) =
  t :: Py.re_split_ws_go true rest.
Proof.
  induction t as [|c t IH]; [done|].
  intros [Hc Ht]%token_text_no_space. simpl. by rewrite Hc, IH.
Qed.

Lemma re_split_ws_after_space c s :
  Py.isspace c = false →
  Py.re_split_ws_go true (String c s) = Py.re_split_ws_go false (String c s).
Proof. intros Hc. simpl. by rewrite Hc. Qed.

Lemma re_split_ws_token t :
  token_text t = true → Py.re_split_ws_go false t = [t].
Proof.
  induction t as [|c t IH]; [done|].
  intros [Hc Ht]%token_text_no_space. simpl. by rewrite Hc, IH.
Qed.

Lemma endswith_colon_app s : Py.endswith_colon (s +:+ ":") = true.
Proof.
  induction s as [|c s IH]; [done|].
  simpl. destruct (s +:+ ":") eqn:E; [by destruct s | done].
Qed.

Lemma drop_last_app s : Py.drop_last (s +:+ ":") = s.
Proof.
  induction s as [|c s IH]; [done|].
  simpl. destruct (s +:+ ":") eqn:E; [by destruct s|]. by rewrite IH.
Qed.

(** The parser keeps the label and the operand as written and
    upper-cases the mnemonic. *)
Lemma parse_line_tokens lab m o n :
  token lab → token m → token o →
  parse_line ((lab +:+ ":") +:+ " " +:+ m +:+ " " +:+ o) n =
    (Some lab, Some (Py.upper m), Some o).
Proof.
  intros [Hlab Hlt] [Hm Hmt] [Ho Hot].
  set (line := (lab +:+ ":") +:+ " " +:+ m +:+ " " +:+ o).
  assert (Py.re_sub_comment line = line) as Hsub.
  { apply re_sub_comment_no_slash. unfold line.
    rewrite !no_slash_app, (token_text_no_slash lab), (token_text_no_slash m),
      (token_text_no_slash o) by done. done. }
  assert (Py.strip line = line) as Hstrip.
  { unfold Py.strip. destruct lab as [|c lab]; [done|].
    apply token_text_no_space in Hlt as [Hc _].
    assert (Py.lstrip line = line) as -> by (unfold line; simpl; by rewrite Hc).
    apply ends_in_token_app. apply (ends_in_token_cons " ").
    apply ends_in_token_app. apply (ends_in_token_cons " ").
    by apply ends_in_token_token. }
  assert (Py.re_split_ws line = [lab +:+ ":"; m; o]) as Hsplit.
  { unfold Py.re_split_ws, line.
    change (" " +:+ m +:+ " " +:+ o) with (String " " (m +:+ String " " o)).
    rewrite re_split_ws_token_space.
    - destruct m as [|c m]; [done|].
      pose proof Hmt as [Hc _]%token_text_no_space.
      change (String c m +:+ String " " o) with (String c (m +:+ String " " o)).
      rewrite re_split_ws_after_space by done.
      change (String c (m +:+ String " " o)) with (String c m +:+ String " " o).
      rewrite re_split_ws_token_space by done.
      destruct o as [|c' o]; [done|].
      pose proof Hot as [Hc' _]%token_text_no_space.
      rewrite re_split_ws_after_space by done.
      by rewrite re_split_ws_token.
    - clear -Hlt. induction lab as [|c lab IH]; [done|].
      simpl in *. apply andb_true_iff in Hlt as [-> Hlt]. by apply IH. }
  unfold parse_line. rewrite Hsub, Hstrip, Hsplit.
  destruct line eqn:E; [by destruct lab|].
  by rewrite endswith_colon_app, drop_last_app.
Qed.

(** C10 (as amended). The parser upper-cases the mnemonic and keeps
    label and operand as written; pass 1 stores the labels as written
    and pass 2 looks the operand up as written. So the operand of a line
    with one of the eight operand mnemonics that differs only in letter
    case from a defined label, and that is not itself defined as a
    label, is not found in the table: the step parses it as a literal of
    the radix its prefix selects and raises [InvalidOperandError] when it
    is no such literal. *)
Theorem label_case_sensitivity :
  (∀ lab m o n, token lab → token m → token o →
     parse_line ((lab +:+ ":") +:+ " " +:+ m +:+ " " +:+ o) n =
       (Some lab, Some (Py.upper m), Some o)) ∧
  (∀ lines self1 l o,
     first_pass new lines = Ok self1 →
     (∃ line, line ∈ lines ∧ label_of line = Some l) →
     Py.upper o = Py.upper l → o ≠ l →
     (∀ line, line ∈ lines → label_of line ≠ Some o) →
     is_Some (labels self1 !! l) ∧
     labels self1 !! o = None ∧
     ∀ ln line st lab instr d,
       labels (self st) = labels self1 →
       parse_line line (ln + 1) = (lab, Some instr, Some o) →
       opcode_digit instr = Some d →
       match Py.int (radix_of o) o with
       | Some a =>
           if decide (0 ≤ a ≤ 99)%Z
           then assemble_step ln line st =
                  emit st (d * 100 + a) (listing_entry (address st) (d * 100 + a))
           else assemble_step ln line st =
                  Raise (AssemblyError OperandRangeError (ln + 1))
       | None =>
           ∃ n, assemble_step ln line st =
                  Raise (AssemblyError InvalidOperandError n)
       end).
Proof.
  split; [apply parse_line_tokens|].
  intros lines self1 l o H1 Hl Hcase Hne Ho.
  assert (labels self1 !! o = None) as Hnone.
  { apply eq_None_not_Some. intros (line & Hin & Hlab)%(first_pass_keys lines); [|done].
    by apply (Ho line). }
  split_and!; [by apply (first_pass_keys lines) | done |].
  intros ln line st lab instr d HL Hparse Hd.
  apply (step_operand_literal ln line lab instr (Some o) Hparse st d o);
    [done | done | by rewrite HL].
Qed.

(** ** The claims on concrete sources *)

(** C1 on the forward reference: [end], defined on the third line, has
    address 2, where the word and the listing entry of that line are. *)
Lemma address_assignment_witness :
  ∃ self' mc cc,
    assemble new forward_reference = Ok (self', (mc, cc)) ∧
    forward_reference = ["BRA end"; "HLT"] ++ "end: HLT" :: [] ∧
    labels self' !! "end" = Some 2 ∧
    ∃ value text,
      memory self' !! 2 = Some (Some value) ∧
      mc !! 2 = Some (Py.format_02d 2 +:+ ": " +:+ text).
Proof.
  assert (∃ r, assemble new forward_reference = Ok r)
    as [[self' [mc cc]] H] by (eexists; vm_compute; reflexivity).
  exists self', mc, cc.
  destruct (address_assignment new forward_reference self' mc cc H
              ["BRA end"; "HLT"] "end: HLT" [] eq_refl)
    as [(self1 & st & _ & _ & _ & _ & Hword) Hlabel].
  split; [exact H|]. split; [reflexivity|]. split.
  - apply (Hlabel "end"). vm_compute. reflexivity.
  - destruct Hword as (value & text & _ & Hmem & Hmc); [vm_compute; reflexivity|].
    exists value, text. split; [exact Hmem | exact Hmc].
Defined.

(** C2 on [ADD 5]: the word is 105. *)
Lemma instruction_word_witness :
  parse_line "ADD 5" (0 + 1) = (None, Some "ADD", Some "5") ∧
  opcode_digit "ADD" = Some 1%Z ∧
  (0 ≤ 5 ≤ 99)%Z ∧
  resolves (labels (self (start new))) "5" 0 5 ∧
  assemble_step 0 "ADD 5" (start new) =
    emit (start new) (1 * 100 + 5) (listing_entry 0 (1 * 100 + 5)) ∧
  ∃ self' mc cc,
    assemble new ([] ++ "ADD 5" :: []) = Ok (self', (mc, cc)) ∧
    memory self' !! 0 = Some (Some (1 * 100 + 5)%Z) ∧
    mc !! 0 = Some (listing_entry 0 (1 * 100 + 5)).
Proof.
  assert (parse_line "ADD 5" (0 + 1) = (None, Some "ADD", Some "5")) as Hparse
    by (vm_compute; reflexivity).
  assert (0 ≤ 5 ≤ 99)%Z as Ha by lia.
  destruct (instruction_word 0 "ADD 5" None "ADD" (Some "5") Hparse 1 "5" 5
              eq_refl eq_refl Ha) as [Hstep Hrun].
  split; [exact Hparse|]. split; [reflexivity|]. split; [exact Ha|].
  split; [vm_compute; reflexivity|]. split.
  - apply (Hstep (start new)). vm_compute. reflexivity.
  - eexists _, _, _. split; [vm_compute; reflexivity|].
    eapply (Hrun new [] []);
      [reflexivity | vm_compute; reflexivity | vm_compute; reflexivity].
Defined.

(** C5 on [inp 42]: the word is 901 and the operand is ignored. *)
Lemma fixed_word_witness :
  parse_line "inp 42" (0 + 1) = (None, Some "INP", Some "42") ∧
  fixed_code "INP" = Some 901%Z ∧
  assemble_step 0 "inp 42" (start new) =
    emit (start new) 901 (listing_entry 0 901) ∧
  ∃ self' mc cc,
    assemble new ([] ++ "inp 42" :: []) = Ok (self', (mc, cc)) ∧
    memory self' !! 0 = Some (Some 901%Z) ∧
    mc !! 0 = Some (listing_entry 0 901).
Proof.
  assert (parse_line "inp 42" (0 + 1) = (None, Some "INP", Some "42")) as Hparse
    by (vm_compute; reflexivity).
  destruct (fixed_word 0 "inp 42" None "INP" (Some "42") Hparse 901 eq_refl)
    as [Hstep Hrun].
  split; [exact Hparse|]. split; [reflexivity|]. split; [apply Hstep|].
  assert (∃ r, assemble new ([] ++ "inp 42" :: []) = Ok r)
    as [[self' [mc cc]] H] by (eexists; vm_compute; reflexivity).
  exists self', mc, cc. split; [exact H|].
  exact (Hrun new [] [] self' mc cc eq_refl H).
Defined.



(** C3 on a concrete source: a label behind the 100th word has address
    100; the operand that names it is taken from the table without the
    range check of the literals, and the word stored for [BRA end] is
    6100, whose operand part is no address. *)
Theorem label_address_unchecked :
  ∃ self' mc cc,
    assemble new label_behind_memory = Ok (self', (mc, cc)) ∧
    labels self' !! "end" = Some 100 ∧
    memory self' !! 0 = Some (Some 6100%Z) ∧
    mc !! 0 = Some "00: 6100" ∧
    initializer_stmt 0 6100 ∈ c_code_lines self'.
Proof.
  eexists _, _, _. split; [vm_compute; reflexivity|].
  split_and!; [vm_compute; reflexivity..|].
  apply (list_elem_of_lookup_2 _ 12). vm_compute. reflexivity.
Qed.

(** C4 on a concrete source: the operand of line 1 is no number, and the
    [InvalidOperandError] names line 2; in general the error that
    [parse_operand] raises for the line with 0-based index [ln], whose
    1-based number is [ln + 1], names line [ln + 2], while the other
    errors of the step name line [ln + 1]. *)
Theorem operand_error_line :
  assemble new ["ADD foo"] = Raise (AssemblyError InvalidOperandError 2) ∧
  (∀ operand ln e,
      parse_operand operand (ln + 1) = Raise e →
      e = AssemblyError InvalidOperandError (ln + 2)) ∧
  assemble new ["ADD"] = Raise (AssemblyError InvalidOperandError 1).
Proof.
  split; [vm_compute; reflexivity|]. split; [|vm_compute; reflexivity].
  intros operand ln e ->%parse_operand_Raise. f_equal. lia.
Qed.



(** C10 as stated fails when two labels differ only in letter case: the
    operand [x] of line 3 differs from the defined label [X] only in
    case, it is no number, and yet it is resolved through the table, as
    label [x]. It also fails for an operand that no instruction reads:
    [LOOP] on line 4 differs from the label [loop] only in case and is no
    number, and [HLT] ignores it. The translation succeeds. *)
Lemma label_case_counterexample :
  ∃ self' mc cc,
    assemble new two_cases = Ok (self', (mc, cc)) ∧
    labels self' !! "X" = Some 1 ∧
    Py.upper "x" = Py.upper "X" ∧ "x" ≠ "X" ∧
    Py.int (radix_of "x") "x" = None ∧
    labels self' !! "x" = Some 0 ∧
    memory self' !! 2 = Some (Some 500%Z) ∧
    labels self' !! "loop" = Some 2 ∧
    Py.upper "LOOP" = Py.upper "loop" ∧ "LOOP" ≠ "loop" ∧
    labels self' !! "LOOP" = None ∧
    Py.int (radix_of "LOOP") "LOOP" = None ∧
    parse_line "HLT LOOP" 4 = (None, Some "HLT", Some "LOOP") ∧
    memory self' !! 3 = Some (Some 0%Z).
Proof.
  eexists _, _, _. split; [vm_compute; reflexivity|].
  split_and!;
    solve [vm_compute; reflexivity | reflexivity | discriminate].
Qed.

(** The amended C10 on [loop: LDA 5] and the operand [LOOP]. *)
Lemma label_case_sensitivity_witness :
  first_pass new ["loop: LDA 5"]
    = Ok (mkLMCAssembler 100 {["loop" := 0]} (memory new)) ∧
  label_of "loop: LDA 5" = Some "loop" ∧
  Py.upper "LOOP" = Py.upper "loop" ∧ "LOOP" ≠ "loop" ∧
  labels (mkLMCAssembler 100 {["loop" := 0]} (memory new)) !! "LOOP" = None ∧
  ∃ n, assemble_step 1 "BRA LOOP"
         (start (mkLMCAssembler 100 {["loop" := 0]} (memory new)))
       = Raise (AssemblyError InvalidOperandError n).
Proof.
  assert (first_pass new ["loop: LDA 5"]
          = Ok (mkLMCAssembler 100 {["loop" := 0]} (memory new))) as H1
    by (vm_compute; reflexivity).
  assert (label_of "loop: LDA 5" = Some "loop") as H2 by (vm_compute; reflexivity).
  destruct (proj2 label_case_sensitivity ["loop: LDA 5"] _ "loop" "LOOP" H1)
    as (_ & Hnone & Hstep).
  - exists "loop: LDA 5". split; [apply list_elem_of_here | exact H2].
  - reflexivity.
  - discriminate.
  - intros line ->%list_elem_of_singleton. rewrite H2. discriminate.
  - split; [exact H1|]. split; [exact H2|]. split; [reflexivity|].
    split; [discriminate|]. split; [exact Hnone|].
    exact (Hstep 1 "BRA LOOP"
             (start (mkLMCAssembler 100 {["loop" := 0]} (memory new)))
             None "BRA" 6%Z eq_refl
             ltac:(vm_compute; reflexivity) eq_refl).
Defined.

(** * Further properties *)

(** ** The shape of a parsed line *)

Lemma rstrip_cons_fixed c s :
  Py.rstrip (String c s) = String c s →
  (s = EmptyString ∧ Py.isspace c = false) ∨
  (s ≠ EmptyString ∧ Py.rstrip s = s).
Proof.
  simpl. destruct (Py.rstrip s) as [|a r] eqn:E.
  - destruct (Py.isspace c); [done|]. intros [= <-]. by left.
  - intros [= <-]. by right.
Qed.

Lemma rstrip_rstrip s : Py.rstrip (Py.rstrip s) = Py.rstrip s.
Proof.
  induction s as [|c s IH]; [done|]. simpl.
  destruct (Py.rstrip s) as [|a r] eqn:E.
  - destruct (Py.isspace c) eqn:Hc; [done|]. simpl. by rewrite Hc.
  - change (Py.rstrip (String c (String a r)))
      with (match Py.rstrip (String a r) with
            | EmptyString =>
                if Py.isspace c then EmptyString else String c EmptyString
            | r' => String c r'
            end).
    by rewrite IH.
Qed.

Lemma lstrip_head c s t : Py.lstrip t = String c s → Py.isspace c = false.
Proof.
  induction t as [|a t IH]; [done|]. simpl.
  destruct (Py.isspace a) eqn:Ha; [done|]. by intros [= <- _].
Qed.

Lemma rstrip_head c s a r :
  Py.rstrip (String c s) = String a r → a = c.
Proof.
  simpl. destruct (Py.rstrip s); [|by intros [= <- _]].
  destruct (Py.isspace c); [done | by intros [= <- _]].
Qed.

(** A stripped text that is not empty starts and ends with a character
    that is no white space. *)
Lemma strip_fixed t c s :
  Py.strip t = String c s →
  Py.isspace c = false ∧ Py.rstrip (String c s) = String c s.
Proof.
  unfold Py.strip. intros H. split.
  - destruct (Py.lstrip t) as [|a r] eqn:E; [done|].
    apply rstrip_head in H as ->. by apply (lstrip_head _ _ _ E).
  - rewrite <-H. apply rstrip_rstrip.
Qed.

Lemma split_pieces_no_space in_ws s :
  Forall (λ piece, no_space piece = true) (Py.re_split_ws_go in_ws s).
Proof.
  revert in_ws. induction s as [|c s IH]; intros in_ws; simpl.
  - by repeat constructor.
  - destruct (Py.isspace c) eqn:Hc.
    + destruct in_ws; [apply IH|]. constructor; [done | apply IH].
    + specialize (IH false). destruct (Py.re_split_ws_go false s) as [|p ps].
      * repeat constructor. simpl. by rewrite Hc.
      * apply Forall_cons in IH as [Hp Hps]. constructor; [|done].
        simpl. by rewrite Hc.
Qed.

Lemma split_pieces_nonempty s :
  s ≠ EmptyString → Py.rstrip s = s →
  Forall (λ piece, piece ≠ EmptyString) (Py.re_split_ws_go true s) ∧
  ∃ p ps, Py.re_split_ws_go false s = p :: ps ∧
          Forall (λ piece, piece ≠ EmptyString) ps ∧
          (∀ c s', s = String c s' → Py.isspace c = false → p ≠ EmptyString).
Proof.
  induction s as [|c s IH]; [done|]. intros _ Hfix.
  apply rstrip_cons_fixed in Hfix as [[-> Hc]|[Hne Hfix]].
  - simpl. rewrite Hc. split; [by repeat constructor|].
    eexists _, _. split; [done|]. split; [constructor | done].
  - destruct (IH Hne Hfix) as (Htrue & p & ps & Hfalse & Hps & Hp).
    simpl. rewrite Hfalse. destruct (Py.isspace c) eqn:Hc.
    + split; [done|]. eexists _, _. split; [done|]. split; [done|].
      intros c' s' [= <- <-]. congruence.
    + split; [by constructor|]. eexists _, _. split; [done|]. split; [done|].
      done.
Qed.

(** The pieces of a stripped text are tokens. *)
Lemma split_stripped t c s :
  Py.strip t = String c s →
  ∃ p ps, Py.re_split_ws (String c s) = p :: ps ∧
          Forall (λ piece, piece ≠ EmptyString ∧ no_space piece = true) (p :: ps).
Proof.
  intros [Hc Hfix]%strip_fixed.
  destruct (split_pieces_nonempty (String c s) ltac:(done) Hfix)
    as (_ & p & ps & Hsplit & Hps & Hp).
  exists p, ps. split; [done|].
  pose proof (split_pieces_no_space false (String c s)) as Hns.
  unfold Py.re_split_ws in *. rewrite Hsplit in Hns.
  apply Forall_cons in Hns as [Hnp Hnps]. constructor.
  - split; [by apply (Hp c s) | done].
  - rewrite Forall_forall in Hps, Hnps. apply Forall_forall. intros x Hx.
    split; [by apply Hps | by apply Hnps].
Qed.

Lemma upper_char_space c : Py.isspace (Py.upper_char c) = Py.isspace c.
Proof. destruct c as [[] [] [] [] [] [] [] []]; reflexivity. Qed.

Lemma upper_char_lower c : lower_char (Py.upper_char c) = false.
Proof. destruct c as [[] [] [] [] [] [] [] []]; reflexivity. Qed.

Lemma upper_no_space s : no_space (Py.upper s) = no_space s.
Proof.
  induction s as [|c s IH]; [done|]. simpl. by rewrite upper_char_space, IH.
Qed.

Lemma upper_no_lower s : no_lower (Py.upper s) = true.
Proof.
  induction s as [|c s IH]; [done|]. simpl. by rewrite upper_char_lower, IH.
Qed.

Lemma drop_last_no_space s : no_space s = true → no_space (Py.drop_last s) = true.
Proof.
  induction s as [|c s IH]; [done|]. simpl.
  intros [Hc Hs]%andb_true_iff. destruct s as [|c' s]; [done|].
  change (no_space (String c (Py.drop_last (String c' s))) = true).
  simpl. rewrite Hc. by apply IH.
Qed.

(** The mnemonic of a parsed line is a non-empty text. *)
Lemma parse_line_instruction line n lab m operand :
  parse_line line n = (lab, Some m, operand) →
  m ≠ EmptyString ∧ no_space m = true ∧ no_lower m = true.
Proof.
  unfold parse_line.
  destruct (Py.strip (Py.re_sub_comment line)) as [|c s] eqn:E; [done|].
  destruct (split_stripped _ _ _ E) as (p & ps & -> & Hall).
  apply Forall_cons in Hall as [[Hp Hnp] Hps].
  assert (∀ first rest, Forall (λ piece, piece ≠ EmptyString ∧ no_space piece = true)
                          (first :: rest) →
            Py.upper first ≠ EmptyString ∧ no_space (Py.upper first) = true ∧
            no_lower (Py.upper first) = true) as Hfirst.
  { intros first rest [[Hf Hnf] _]%Forall_cons.
    rewrite upper_no_space, upper_no_lower. split_and!; [|done..].
    by destruct first. }
  destruct (Py.endswith_colon p).
  - destruct ps as [|first rest]; [done|]. intros [= _ <- _]. by apply (Hfirst _ rest).
  - intros [= _ <- _]. apply (Hfirst _ ps). constructor; done.
Qed.

Lemma parse_line_label line n l instr operand :
  parse_line line n = (Some l, instr, operand) → no_space l = true.
Proof.
  unfold parse_line.
  destruct (Py.strip (Py.re_sub_comment line)) as [|c s] eqn:E; [done|].
  destruct (split_stripped _ _ _ E) as (p & ps & -> & Hall).
  apply Forall_cons in Hall as [[_ Hnp] _].
  destruct (Py.endswith_colon p); [|by destruct ps].
  destruct ps; intros [= <- _ _]; by apply drop_last_no_space.
Qed.

Lemma parse_line_operand line n lab instr o :
  parse_line line n = (lab, instr, Some o) →
  o ≠ EmptyString ∧ no_space o = true ∧ is_Some instr.
Proof.
  unfold parse_line.
  destruct (Py.strip (Py.re_sub_comment line)) as [|c s] eqn:E; [done|].
  destruct (split_stripped _ _ _ E) as (p & ps & -> & Hall).
  apply Forall_cons in Hall as [_ Hps].
  destruct (Py.endswith_colon p).
  - destruct ps as [|first [|second rest]]; [done..|].
    intros [= _ <- <-].
    apply Forall_cons in Hps as [_ [[Ho Hno] _]%Forall_cons]. done.
  - destruct ps as [|second rest]; [done|].
    intros [= _ <- <-]. apply Forall_cons in Hps as [[Ho Hno] _]. done.
Qed.

Lemma parse_line_blank line n operand :
  parse_line line n = (None, None, operand) →
  Py.strip (Py.re_sub_comment line) = EmptyString.
Proof.
  unfold parse_line.
  destruct (Py.strip (Py.re_sub_comment line)) as [|c s] eqn:E; [done|].
  destruct (split_stripped _ _ _ E) as (p & ps & -> & _).
  destruct (Py.endswith_colon p); [|done]. by destruct ps.
Qed.

(** X1. Whatever the line, the parser returns a mnemonic that is a
    non-empty text without white space and without lower-case letter, an
    operand that is a non-empty text without white space, and a label
    without white space; an operand comes only with a mnemonic; and all
    three are absent only when nothing but white space is left of the
    line after its comment is removed. *)
Theorem parse_line_shape line n lab instr operand :
  parse_line line n = (lab, instr, operand) →
  (∀ l, lab = Some l → no_space l = true) ∧
  (∀ m, instr = Some m →
        m ≠ EmptyString ∧ no_space m = true ∧ no_lower m = true) ∧
  (∀ o, operand = Some o →
        o ≠ EmptyString ∧ no_space o = true ∧ is_Some instr) ∧
  (lab = None → instr = None →
   Py.strip (Py.re_sub_comment line) = EmptyString).
Proof.
  intros H. split_and!.
  - intros l ->. by apply (parse_line_label line n l instr operand).
  - intros m ->. by apply (parse_line_instruction line n lab m operand).
  - intros o ->. by apply (parse_line_operand line n lab instr o).
  - intros -> ->. by apply (parse_line_blank line n operand).
Qed.

Lemma parse_line_shape_witness :
  parse_line "  loop:  lda  0x1f   // load" 1
    = (Some "loop", Some "LDA", Some "0x1f") ∧
  no_space "loop" = true ∧
  ("LDA" ≠ EmptyString ∧ no_space "LDA" = true ∧ no_lower "LDA" = true) ∧
  ("0x1f" ≠ EmptyString ∧ no_space "0x1f" = true).
Proof.
  assert (parse_line "  loop:  lda  0x1f   // load" 1
          = (Some "loop", Some "LDA", Some "0x1f")) as H
    by (vm_compute; reflexivity).
  destruct (parse_line_shape _ _ _ _ _ H) as (Hl & Hm & Ho & _).
  split; [exact H|]. split; [exact (Hl _ eq_refl)|].
  split; [exact (Hm _ eq_refl)|].
  destruct (Ho _ eq_refl) as (H1 & H2 & _). split; [exact H1 | exact H2].
Defined.

(** ** Comments and line ends *)

Lemma app_String c (s t : string) : String c s +:+ t = String c (s +:+ t).
Proof. reflexivity. Qed.

Lemma re_sub_comment_go_comment c :
  no_newline c = true → Py.re_sub_comment_go true c = EmptyString.
Proof.
  induction c as [|a c IH]; [done|]. simpl.
  intros [Ha Hc]%andb_true_iff. apply negb_true_iff in Ha. rewrite Ha. by apply IH.
Qed.

Lemma re_sub_comment_go_comment_line c t :
  no_newline c = true →
  Py.re_sub_comment_go true (c +:+ newline +:+ t)
  = newline +:+ Py.re_sub_comment_go false t.
Proof.
  induction c as [|a c IH]; [done|]. simpl.
  intros [Ha Hc]%andb_true_iff. apply negb_true_iff in Ha. rewrite Ha. by apply IH.
Qed.

Lemma re_sub_comment_before s rest :
  no_slash s = true →
  Py.re_sub_comment (s +:+ "//" +:+ rest)
  = s +:+ Py.re_sub_comment_go true (String "/" rest).
Proof.
  unfold Py.re_sub_comment. induction s as [|a s IH]; [done|].
  intros [Ha Hs]%andb_true_iff. apply negb_true_iff in Ha.
  change ((String a s +:+ "//" +:+ rest)) with (String a (s +:+ "//" +:+ rest)).
  cbn [Py.re_sub_comment_go]. rewrite Ha. cbn [andb].
  destruct (s +:+ "//" +:+ rest) eqn:E; [by destruct s|].
  rewrite IH by exact Hs. reflexivity.
Qed.

Lemma rstrip_app_space s c :
  Py.isspace c = true → Py.rstrip (s +:+ String c EmptyString) = Py.rstrip s.
Proof.
  intros Hc. induction s as [|a s IH]; simpl; [by rewrite Hc | by rewrite IH].
Qed.

Lemma strip_app_space s c :
  Py.isspace c = true → Py.strip (s +:+ String c EmptyString) = Py.strip s.
Proof.
  intros Hc. unfold Py.strip. induction s as [|a s IH]; simpl.
  - by rewrite Hc.
  - destruct (Py.isspace a); [done|].
    by apply (rstrip_app_space (String a s)).
Qed.

Lemma string_app_nil_r (s : string) : s +:+ EmptyString = s.
Proof. induction s as [|c s IH]; [done|]. rewrite app_String. by f_equal. Qed.

(** The line parser depends on a line through its stripped text. *)
Lemma parse_line_stripped line line' n :
  Py.strip (Py.re_sub_comment line) = Py.strip (Py.re_sub_comment line') →
  parse_line line n = parse_line line' n.
Proof. unfold parse_line. by intros ->. Qed.

(** X2. A comment that follows a text without slash is ignored, and so
    is the newline that ends a line: the line parses as the text before
    them. *)
Theorem comment_and_newline_ignored s c n :
  no_slash s = true → no_newline c = true →
  parse_line (s +:+ "//" +:+ c) n = parse_line s n ∧
  parse_line (s +:+ "//" +:+ c +:+ newline) n = parse_line s n ∧
  parse_line (s +:+ newline) n = parse_line s n.
Proof.
  intros Hs Hc.
  assert (Py.re_sub_comment s = s) as Hsub by by apply re_sub_comment_no_slash.
  assert (no_newline (String "/" c) = true) as Hc' by done.
  split_and!; apply parse_line_stripped; rewrite Hsub.
  - rewrite re_sub_comment_before, re_sub_comment_go_comment by done.
    by rewrite string_app_nil_r.
  - rewrite re_sub_comment_before by done.
    change (String "/" (c +:+ newline))
      with (String "/" c +:+ newline +:+ EmptyString).
    rewrite re_sub_comment_go_comment_line by done. simpl.
    by apply strip_app_space.
  - rewrite re_sub_comment_no_slash by (by rewrite no_slash_app, Hs).
    by apply strip_app_space.
Qed.

Lemma comment_and_newline_ignored_witness :
  no_slash "x: DAT 5 " = true ∧ no_newline " the constant // five" = true ∧
  parse_line ("x: DAT 5 " +:+ "//" +:+ " the constant // five" +:+ newline) 1
    = parse_line "x: DAT 5 " 1 ∧
  parse_line "x: DAT 5 " 1 = (Some "x", Some "DAT", Some "5").
Proof.
  assert (no_slash "x: DAT 5 " = true) as Hs by reflexivity.
  assert (no_newline " the constant // five" = true) as Hc by reflexivity.
  split; [exact Hs|]. split; [exact Hc|]. split.
  - exact (proj1 (proj2 (comment_and_newline_ignored _ _ 1 Hs Hc))).
  - vm_compute. reflexivity.
Defined.

(** ** Pass 1 and duplicate labels *)

Lemma first_pass_loop_app pre post ln st :
  first_pass_loop (pre ++ post) ln st =
  first_pass_loop pre ln st ≫= first_pass_loop post (ln + length pre).
Proof.
  revert ln st. induction pre as [|l pre' IH]; intros ln st; simpl.
  - by rewrite Nat.add_0_r.
  - destruct (first_pass_step ln l st) as [st1|e]; simpl; [|done].
    rewrite IH. by replace (S ln + length pre') with (ln + S (length pre')) by lia.
Qed.

Lemma defined_labels_cons line lines :
  defined_labels (line :: lines) =
  match label_of line with
  | Some lab => lab :: defined_labels lines
  | None => defined_labels lines
  end.
Proof. done. Qed.

(** Pass 1 completes exactly when the labels to come are pairwise
    distinct and new to the table. *)
Lemma first_pass_loop_succeeds lines ln a (L : gmap string nat) :
  (∃ r, first_pass_loop lines ln (a, L) = Ok r) ↔
  NoDup (defined_labels lines) ∧
  ∀ lab, lab ∈ defined_labels lines → L !! lab = None.
Proof.
  revert ln a L. induction lines as [|l lines IH]; intros ln a L.
  - simpl. split; [|eauto]. intros _. split; [constructor|].
    by intros lab ?%elem_of_nil.
  - rewrite defined_labels_cons. cbn [first_pass_loop]. split.
    + intros [r ([a1 L1] & Hstep & Hloop)%bind_Ok].
      apply first_pass_step_Ok in Hstep as [-> Hlab].
      destruct (proj1 (IH _ _ _) (ex_intro _ r Hloop)) as [Hnd Hnew].
      destruct (label_of l) as [lab|]; [|by subst].
      destruct Hlab as [Hnone ->]. split.
      * apply NoDup_cons. split; [|done]. intros Hin.
        specialize (Hnew lab Hin). by rewrite lookup_insert_eq in Hnew.
      * intros lab' [->|Hin]%elem_of_cons; [done|].
        by apply Hnew, lookup_insert_None in Hin as [? _].
    + intros [Hnd Hnew].
      destruct (label_of l) as [lab|] eqn:Hl.
      * apply NoDup_cons in Hnd as [Hnin Hnd].
        destruct (proj2 (IH (S ln) (a + (if mnemonic_bearing l then 1 else 0))
                           (<[lab := a]> L))) as [r Hr].
        { split; [done|]. intros lab' Hin. apply lookup_insert_None.
          split; [apply Hnew; by right | by intros ->]. }
        exists r. apply bind_Ok. eexists (_, _). split; [|exact Hr].
        apply first_pass_step_Ok. rewrite Hl. split; [done|].
        split; [apply Hnew; by left | done].
      * destruct (proj2 (IH (S ln) (a + (if mnemonic_bearing l then 1 else 0)) L))
          as [r Hr]; [done|].
        exists r. apply bind_Ok. eexists (_, _). split; [|exact Hr].
        apply first_pass_step_Ok. by rewrite Hl.
Qed.

(** X3. On a fresh assembler pass 1 completes exactly when no label is
    defined twice in the source text. *)
Theorem first_pass_succeeds_iff lines :
  (∃ self1, first_pass new lines = Ok self1) ↔ NoDup (defined_labels lines).
Proof.
  split.
  - intros [self1 (a & Hloop & _)%first_pass_Ok].
    by apply (first_pass_loop_succeeds lines 0 0 (labels new)); eauto.
  - intros Hnd.
    destruct (proj2 (first_pass_loop_succeeds lines 0 0 (labels new)))
      as [[a L] Hr].
    { split; [done|]. intros lab _. apply lookup_empty. }
    unfold first_pass. rewrite Hr. simpl. eauto.
Qed.

(** The first line that repeats a label of the table or of the lines
    before it ends pass 1. *)
Lemma first_pass_loop_duplicate pre line post ln a (L : gmap string nat) lab :
  NoDup (defined_labels pre) →
  (∀ l, l ∈ defined_labels pre → L !! l = None) →
  label_of line = Some lab →
  lab ∈ defined_labels pre ∨ is_Some (L !! lab) →
  first_pass_loop (pre ++ line :: post) ln (a, L)
  = Raise (AssemblyError DuplicateLabelError (ln + length pre + 1)).
Proof.
  intros Hnd Hnew Hlab Hdup.
  destruct (proj2 (first_pass_loop_succeeds pre ln a L)) as [[a1 L1] Hpre];
    [done|].
  rewrite first_pass_loop_app, Hpre.
  pose proof (first_pass_loop_Ok _ _ _ _ _ _ Hpre) as (_ & Hsub & Hdef & _).
  assert (is_Some (L1 !! lab)) as Hsome.
  { destruct Hdup as [Hin|[x Hx]].
    - apply list_elem_of_omap in Hin as (l0 & Hin & Hl0).
      apply list_elem_of_split in Hin as (p1 & p2 & ->).
      rewrite (Hdef p1 l0 p2 lab eq_refl Hl0). eauto.
    - exists x. by eapply lookup_weaken. }
  apply bind_Raise. right. exists (a1, L1). split; [done|].
  cbn [first_pass_loop]. apply bind_Raise. left.
  apply first_pass_step_Raise. split; [done|]. eauto.
Qed.

(** X4. The line that is the first to define a label for the second
    time is the one that the translation reports, as
    [DuplicateLabelError] with the 1-based number of that line, whatever
    else the source holds: pass 1 runs to its end before pass 2 looks
    at any line. *)
Theorem duplicate_label_line pre line post lab :
  NoDup (defined_labels pre) → label_of line = Some lab →
  lab ∈ defined_labels pre →
  first_pass new (pre ++ line :: post)
    = Raise (AssemblyError DuplicateLabelError (length pre + 1)) ∧
  assemble new (pre ++ line :: post)
    = Raise (AssemblyError DuplicateLabelError (length pre + 1)).
Proof.
  intros Hnd Hlab Hin.
  assert (first_pass new (pre ++ line :: post)
          = Raise (AssemblyError DuplicateLabelError (length pre + 1))) as H1.
  { unfold first_pass.
    rewrite (first_pass_loop_duplicate pre line post 0 0 _ lab); [done..| |done|].
    - intros l _. apply lookup_empty.
    - by left. }
  split; [done|]. unfold assemble. by rewrite H1.
Qed.

Lemma duplicate_label_line_witness :
  NoDup (defined_labels ["FOO"; "a: HLT"]) ∧
  label_of "a: DAT 1" = Some "a" ∧
  "a" ∈ defined_labels ["FOO"; "a: HLT"] ∧
  assemble new (["FOO"; "a: HLT"] ++ "a: DAT 1" :: ["a: BAR"])
    = Raise (AssemblyError DuplicateLabelError (2 + 1)).
Proof.
  assert (NoDup (defined_labels ["FOO"; "a: HLT"])) as Hnd.
  { change (NoDup ["a"]). apply NoDup_singleton. }
  assert ("a" ∈ defined_labels ["FOO"; "a: HLT"]) as Hin.
  { change ("a" ∈ ["a"]). apply list_elem_of_here. }
  split; [exact Hnd|]. split; [reflexivity|]. split; [exact Hin|].
  exact (proj2 (duplicate_label_line ["FOO"; "a: HLT"] "a: DAT 1" ["a: BAR"] "a"
                  Hnd eq_refl Hin)).
Defined.

(** X5. The label table outlives a translation: a second call of
    [assemble] on the object that a successful call has left, with the
    same source, raises [DuplicateLabelError] on the first line of the
    source that defines a label. *)
Theorem second_call_duplicate self0 pre line post lab self' r :
  assemble self0 (pre ++ line :: post) = Ok (self', r) →
  defined_labels pre = [] → label_of line = Some lab →
  assemble self' (pre ++ line :: post)
    = Raise (AssemblyError DuplicateLabelError (length pre + 1)).
Proof.
  destruct r as [mc cc]. intros Hrun Hpre Hlab.
  apply assemble_Ok in Hrun as (self1 & st & H1 & H2 & -> & _ & _).
  apply first_pass_Ok in H1 as (a & Hfp & _).
  apply first_pass_loop_Ok in Hfp as (_ & _ & Hdef & _).
  apply assemble_loop_Ok in H2 as (HL & _). simpl in HL.
  unfold assemble, first_pass.
  rewrite (first_pass_loop_duplicate pre line post 0 0 _ lab); [done | | |done|].
  - rewrite Hpre. constructor.
  - rewrite Hpre. by intros l ?%elem_of_nil.
  - right. rewrite HL, (Hdef pre line post lab eq_refl Hlab). eauto.
Qed.

Lemma second_call_duplicate_witness :
  ∃ self' r,
    assemble new (["// count down"; "INP"] ++ "loop: OUT" :: ["BRA loop"])
      = Ok (self', r) ∧
    defined_labels ["// count down"; "INP"] = [] ∧
    label_of "loop: OUT" = Some "loop" ∧
    assemble self' (["// count down"; "INP"] ++ "loop: OUT" :: ["BRA loop"])
      = Raise (AssemblyError DuplicateLabelError (2 + 1)).
Proof.
  assert (∃ x, assemble new (["// count down"; "INP"] ++ "loop: OUT" :: ["BRA loop"])
               = Ok x) as [[self' r] H] by (eexists; vm_compute; reflexivity).
  exists self', r. split; [exact H|]. split; [reflexivity|].
  split; [reflexivity|].
  exact (second_call_duplicate new _ _ _ "loop" self' r H eq_refl eq_refl).
Defined.

(** ** The steps of pass 2 *)

Lemma INSTRUCTIONS_lookup instr o :
  INSTRUCTIONS !! instr = Some o →
  (instr = "DAT" ∧ o = None) ∨
  (∃ w, fixed_code instr = Some w ∧ (0 ≤ w ≤ 999)%Z) ∨
  (∃ d, opcode_digit instr = Some d).
Proof.
  intros E. apply elem_of_list_to_map_2 in E.
  repeat match goal with
         | H : _ ∈ _ :: _ |- _ => apply elem_of_cons in H as [H|H]
         | H : (_, _) = (_, _) |- _ => injection H as -> ->
         | H : _ ∈ [] |- _ => by apply elem_of_nil in H
         end;
    first [ by left
          | right; left; eexists; split; [vm_compute; reflexivity | lia]
          | right; right; eexists; vm_compute; reflexivity ].
Qed.

Lemma INSTRUCTIONS_get_cases instr opcode :
  INSTRUCTIONS_get instr = Some opcode →
  (∃ w, fixed_code instr = Some w ∧ (0 ≤ w ≤ 999)%Z) ∨
  (∃ d, opcode_digit instr = Some d).
Proof.
  unfold INSTRUCTIONS_get.
  destruct (INSTRUCTIONS !! instr) as [o|] eqn:E; [|done].
  destruct (INSTRUCTIONS_lookup _ _ E) as [[-> ->]|H]; done.
Qed.

(** A key of the table is [DAT] or has an opcode. *)
Lemma INSTRUCTIONS_get_None instr :
  INSTRUCTIONS_get instr = None → instr ≠ "DAT" → INSTRUCTIONS !! instr = None.
Proof.
  unfold INSTRUCTIONS_get.
  destruct (INSTRUCTIONS !! instr) as [[o|]|] eqn:E; [done | | done].
  intros _ Hne.
  destruct (INSTRUCTIONS_lookup _ _ E) as [[-> _]|[(w & Hw & _)|[d Hd]]]; [done | |].
  - apply fixed_mnemonic in Hw as (_ & _ & Hget & _).
    unfold INSTRUCTIONS_get in Hget. by rewrite E in Hget.
  - apply operand_mnemonic in Hd as (_ & _ & _ & Hget & _).
    unfold INSTRUCTIONS_get in Hget. by rewrite E in Hget.
Qed.

(** A step that completes on a mnemonic-bearing line has stored one
    word at the current address and listed that word. *)
Lemma assemble_step_word ln line st st' :
  assemble_step ln line st = Ok st' → mnemonic_bearing line = true →
  ∃ w, st' = emitted st w (listing_entry (address st) w) ∧
       address st < length (memory (self st)) ∧
       stored_word (labels (self st)) w.
Proof.
  unfold assemble_step, mnemonic_bearing, instruction_of.
  rewrite (parse_line_line_number line (ln + 1) 0).
  destruct (parse_line line 0) as [[lab instr] operand]; simpl.
  destruct instr as [[|c instr]|]; simpl; [done | | done].
  intros H _. revert H.
  destruct (String.eqb (String c instr) "DAT").
  - destruct operand as [o|]; simpl.
    + destruct (parse_operand o (ln + 1)) as [v|e]; simpl; [|done].
      destruct (negb _) eqn:Hr; [done|].
      apply negb_false_iff, andb_true_iff in Hr as [Hlo%Z.leb_le Hhi%Z.leb_le].
      intros [Hlt ->]%emit_Ok. exists v. split_and!; [done | done | by left].
    + intros [Hlt ->]%emit_Ok. exists 0%Z. split_and!; [done | done | left; lia].
  - destruct (INSTRUCTIONS_get (String c instr)) as [opcode|] eqn:Hget; [|done].
    destruct (INSTRUCTIONS_get_cases _ _ Hget) as [(w & Hw & Hrange)|[d Hd]].
    + apply fixed_mnemonic in Hw as (_ & _ & Hget' & Hio & Hint).
      rewrite Hget' in Hget. injection Hget as <-. rewrite Hio, Hint. simpl.
      intros [Hlt ->]%emit_Ok. exists w. split_and!; [done | done | left; lia].
    + apply operand_mnemonic in Hd as (Hd & _ & _ & Hget' & Hio).
      rewrite Hget' in Hget. injection Hget as <-. rewrite Hio.
      destruct operand as [o|]; [|done].
      destruct (labels (self st) !! o) as [a|] eqn:Hl; simpl.
      * destruct (decide (a ≤ 99)) as [Ha|Ha].
        -- rewrite encode_word by lia. simpl.
           intros [Hlt ->]%emit_Ok. exists (d * 100 + Z.of_nat a)%Z.
           split_and!; [done | done | left; lia].
        -- destruct (int_or_raise _) as [w|e] eqn:Hw; simpl; [|done].
           intros [Hlt ->]%emit_Ok. exists w. split_and!; [done | done |].
           right. exists d, o, a. split_and!; [lia | lia | done | lia | done].
      * destruct (parse_operand o (ln + 1)) as [v|e]; simpl; [|done].
        destruct (negb _) eqn:Hr; simpl; [done|].
        apply negb_false_iff, andb_true_iff in Hr as [Hlo%Z.leb_le Hhi%Z.leb_le].
        rewrite encode_word by lia. simpl.
        intros [Hlt ->]%emit_Ok. exists (d * 100 + v)%Z.
        split_and!; [done | done | left; lia].
Qed.

Lemma emit_no_AssemblyError st value entry kind n :
  emit st value entry ≠ Raise (AssemblyError kind n).
Proof. by intros [_ [=]]%emit_Raise. Qed.

Lemma int_or_raise_no_AssemblyError s kind n :
  int_or_raise s ≠ Raise (AssemblyError kind n).
Proof. unfold int_or_raise. by destruct (Py.int 10 s). Qed.

(** X6. A step of pass 2 raises [InvalidInstructionError] exactly when
    the mnemonic of its line is no key of the instruction table, and
    then for the 1-based number of the line; the operand plays no part
    in it. *)
Theorem invalid_instruction_iff ln line st n :
  assemble_step ln line st = Raise (AssemblyError InvalidInstructionError n) ↔
  n = ln + 1 ∧ ∃ m, instruction_of line = Some m ∧ INSTRUCTIONS !! m = None.
Proof.
  unfold assemble_step, instruction_of.
  rewrite (parse_line_line_number line (ln + 1) 0).
  destruct (parse_line line 0) as [[lab instr] operand] eqn:Hp; simpl.
  destruct instr as [m|]; [|split; [done | by intros [_ (m & [=] & _)]]].
  pose proof (parse_line_instruction _ _ _ _ _ Hp) as (Hne & _).
  destruct m as [|c m]; [done|]. clear Hne.
  destruct (String.eqb_spec (String c m) "DAT") as [->|Hdat].
  - split.
    + intros H. exfalso. revert H.
      destruct operand as [o|]; simpl; [|apply emit_no_AssemblyError].
      destruct (parse_operand o (ln + 1)) as [v|e] eqn:E; simpl.
      * destruct (negb _); [done | apply emit_no_AssemblyError].
      * by apply parse_operand_Raise in E as ->.
    + by intros [_ (m' & [= <-] & Hnone)].
  - destruct (INSTRUCTIONS_get (String c m)) as [opcode|] eqn:Hget.
    + split.
      * intros H. exfalso. revert H.
        pose proof (INSTRUCTIONS_get_numeral _ _ Hget) as Hnum.
        destruct (is_io_or_halt (String c m)).
        { rewrite int_or_raise_numeral by done. apply emit_no_AssemblyError. }
        destruct operand as [o|]; [|done].
        destruct (labels (self st) !! o) as [a|]; simpl.
        { destruct (int_or_raise _) eqn:Hi; [apply emit_no_AssemblyError|].
          simpl. intros [= ->]. by apply int_or_raise_no_AssemblyError in Hi. }
        destruct (parse_operand o (ln + 1)) as [v|e] eqn:E; simpl;
          [|by apply parse_operand_Raise in E as ->].
        destruct (negb _); simpl; [done|].
        destruct (int_or_raise _) eqn:Hi; [apply emit_no_AssemblyError|].
          simpl. intros [= ->]. by apply int_or_raise_no_AssemblyError in Hi.
      * intros [_ (m' & [= <-] & Hnone)]. unfold INSTRUCTIONS_get in Hget.
        by rewrite Hnone in Hget.
    + split.
      * intros [= <-]. split; [done|]. eexists. split; [done|].
        by apply INSTRUCTIONS_get_None.
      * by intros [-> _].
Qed.

(** ** The errors of a translation *)




(** ** The memory image of a translation *)

Lemma insert_first_free (ws : list Z) k w :
  0 < k →
  <[length ws := Some w]> ((Some <$> ws) ++ replicate k None)
  = (Some <$> (ws ++ [w])) ++ replicate (k - 1) None.
Proof.
  intros Hk. destruct k as [|k]; [lia|].
  rewrite insert_app_r_alt by (by rewrite length_fmap).
  rewrite length_fmap, Nat.sub_diag, fmap_app, <-app_assoc. simpl.
  by rewrite Nat.sub_0_r.
Qed.

Lemma imap_snoc {A B} (f : nat → A → B) l x :
  imap f (l ++ [x]) = imap f l ++ [f (length l) x].
Proof. rewrite imap_app. simpl. by rewrite Nat.add_0_r. Qed.

(** The invariant of pass 2 on a memory that is filled from the
    front. *)
Lemma assemble_loop_image lines ln st st' ws k :
  assemble_loop lines ln st = Ok st' →
  memory (self st) = (Some <$> ws) ++ replicate k None →
  address st = length ws →
  machine_code st = imap listing_entry ws →
  ∃ ws', length ws' = mnemonic_lines lines ∧ length ws' ≤ k ∧
         memory (self st') = (Some <$> (ws ++ ws')) ++ replicate (k - length ws') None ∧
         machine_code st' = imap listing_entry (ws ++ ws') ∧
         Forall (stored_word (labels (self st))) ws'.
Proof.
  revert ln st ws k. induction lines as [|l lines IH]; intros ln st ws k.
  - intros [= <-] Hmem Ha Hmc. exists []. rewrite app_nil_r, Nat.sub_0_r.
    split_and!; [done | simpl; lia | done | done | constructor].
  - cbn [assemble_loop mnemonic_lines].
    intros (st1 & Hstep & Hloop)%bind_Ok Hmem Ha Hmc.
    destruct (mnemonic_bearing l) eqn:Hm.
    + destruct (assemble_step_word _ _ _ _ Hstep Hm) as (w & -> & Hlt & Hw).
      rewrite Hmem, length_app, length_fmap, length_replicate in Hlt.
      destruct (IH _ _ (ws ++ [w]) (k - 1) Hloop)
        as (ws' & Hlen & Hle & Hmem' & Hmc' & Hall).
      { simpl. rewrite Hmem, Ha. apply insert_first_free. lia. }
      { simpl. rewrite length_app. simpl. lia. }
      { simpl. by rewrite Hmc, Ha, imap_snoc. }
      exists (w :: ws'). rewrite <-app_assoc in Hmem', Hmc'. simpl in *.
      split_and!; [lia | lia | | done | by constructor].
      rewrite Hmem'. do 2 f_equal. lia.
    + apply assemble_step_Ok in Hstep as [[_ ->]|[? _]]; [|congruence].
      apply (IH _ _ ws k Hloop); done.
Qed.

Lemma append_initializers_image i (ws : list Z) k c_code :
  append_initializers i ((Some <$> ws) ++ replicate k None) c_code
  = c_code ++ imap (λ j, initializer_stmt (i + j)) ws.
Proof.
  revert i c_code. induction ws as [|w ws IH]; intros i c_code; simpl.
  - rewrite app_nil_r. revert i. induction k as [|k IHk]; intros i; [done|].
    simpl. apply IHk.
  - rewrite IH, <-app_assoc, Nat.add_0_r. simpl. do 2 f_equal.
    apply imap_ext. intros j x _. simpl. f_equal. lia.
Qed.

Lemma mnemonic_lines_app pre post :
  mnemonic_lines (pre ++ post) = mnemonic_lines pre + mnemonic_lines post.
Proof. induction pre as [|l pre IH]; [done|]. simpl. rewrite IH. lia. Qed.

(** The translation of a fresh assembler, with the words it stored. *)
Lemma assemble_new_words lines self' mc cc :
  assemble new lines = Ok (self', (mc, cc)) →
  ∃ words,
    length words = mnemonic_lines lines ∧ length words ≤ 100 ∧
    memory self' = (Some <$> words) ++ replicate (100 - length words) None ∧
    mc = imap listing_entry words ∧
    Forall (stored_word (labels self')) words.
Proof.
  intros (self1 & st & H1 & H2 & -> & -> & _)%assemble_Ok.
  apply first_pass_Ok in H1 as (a & _ & _ & Hmem).
  pose proof (assemble_loop_Ok _ _ _ _ H2) as (HL & _).
  destruct (assemble_loop_image lines 0 (start self1) st [] 100 H2)
    as (words & Hlen & Hle & Hmem' & Hmc & Hall);
    [by cbn [start self]; rewrite Hmem | done..|].
  exists words. rewrite HL. done.
Qed.

(** X8. A translation that succeeds on a fresh assembler has at most
    100 mnemonic-bearing lines, and their words fill the memory from
    cell 0 on without gap while the cells behind them stay unset; the
    listing holds the entry of each word under its address, and the C
    text holds, between its two fixed parts, the initializer of each
    word under its address, in the same order. *)
Theorem assembled_image lines self' mc cc :
  assemble new lines = Ok (self', (mc, cc)) →
  ∃ words,
    length words = mnemonic_lines lines ∧ length words ≤ 100 ∧
    memory self' = (Some <$> words) ++ replicate (100 - length words) None ∧
    mc = imap listing_entry words ∧
    c_code_lines self' = C.preamble ++ imap initializer_stmt words ++ C.interpreter ∧
    cc = Py.join_lines (C.preamble ++ imap initializer_stmt words ++ C.interpreter).
Proof.
  intros H.
  destruct (assemble_new_words _ _ _ _ H) as (words & Hlen & Hle & Hmem & Hmc & _).
  assert (c_code_lines self'
          = C.preamble ++ imap initializer_stmt words ++ C.interpreter) as Hlines.
  { unfold c_code_lines. by rewrite Hmem, append_initializers_image, <-app_assoc. }
  exists words. split_and!; [done..|].
  apply assemble_Ok in H as (self1 & st & _ & _ & -> & _ & ->).
  unfold generate_c_code. by rewrite Hlines.
Qed.

Lemma assembled_image_witness :
  ∃ self' mc cc words,
    assemble new ["INP"; "end:"; ""; "x: DAT -5"] = Ok (self', (mc, cc)) ∧
    length words = 2 ∧
    memory self' = (Some <$> words) ++ replicate (100 - length words) None ∧
    mc = imap listing_entry words ∧
    c_code_lines self' = C.preamble ++ imap initializer_stmt words ++ C.interpreter.
Proof.
  assert (∃ r, assemble new ["INP"; "end:"; ""; "x: DAT -5"] = Ok r)
    as [[self' [mc cc]] H] by (eexists; vm_compute; reflexivity).
  destruct (assembled_image _ _ _ _ H) as (words & Hlen & _ & Hmem & Hmc & Hc & _).
  exists self', mc, cc, words.
  split; [exact H|]. split; [exact Hlen|]. split; [exact Hmem|].
  split; [exact Hmc | exact Hc].
Defined.

(** ** The label table of a translation *)

Lemma first_pass_new_label lines self1 lab a :
  first_pass new lines = Ok self1 → labels self1 !! lab = Some a →
  ∃ pre line post,
    lines = pre ++ line :: post ∧ label_of line = Some lab ∧
    a = mnemonic_lines pre.
Proof.
  intros H1 Hlab.
  assert (∃ line, line ∈ lines ∧ label_of line = Some lab)
    as (line & (pre & post & ->)%list_elem_of_split & Hl)
    by (apply (first_pass_keys _ self1); eauto).
  apply first_pass_Ok in H1 as (a' & Hfp & _).
  apply first_pass_loop_Ok in Hfp as (_ & _ & Hdef & _).
  rewrite (Hdef pre line post lab eq_refl Hl) in Hlab. injection Hlab as <-.
  exists pre, line, post. done.
Qed.

Lemma label_of_shape line lab :
  label_of line = Some lab → lab ≠ EmptyString ∧ no_space lab = true.
Proof.
  unfold label_of. destruct (parse_line line 0) as [[l instr] operand] eqn:Hp.
  simpl. destruct l as [[|c s]|]; [done | | done]. intros [= <-].
  split; [done|]. by apply (parse_line_label _ _ _ _ _ Hp).
Qed.

Lemma assemble_new_label lines self' r lab a :
  assemble new lines = Ok (self', r) → labels self' !! lab = Some a →
  NoDup (defined_labels lines) ∧
  ∃ pre line post,
    lines = pre ++ line :: post ∧ label_of line = Some lab ∧
    a = mnemonic_lines pre.
Proof.
  destruct r as [mc cc].
  intros (self1 & st & H1 & H2 & -> & _)%assemble_Ok Hlab.
  apply assemble_loop_Ok in H2 as (HL & _). simpl in HL. rewrite HL in Hlab.
  split; [|by apply (first_pass_new_label lines self1)].
  apply first_pass_Ok in H1 as (a' & Hfp & _).
  by apply (first_pass_loop_succeeds lines 0 0 (labels new)); eauto.
Qed.

(** X9. The label table that a successful translation leaves: its keys
    are the labels that the lines define, each a non-empty text without
    white space and defined on one line only, and each maps to the
    number of mnemonic-bearing lines before its line, which is at most
    the number of words, hence at most 100. *)
Theorem label_table lines self' r lab a :
  assemble new lines = Ok (self', r) → labels self' !! lab = Some a →
  lab ≠ EmptyString ∧ no_space lab = true ∧
  a ≤ mnemonic_lines lines ∧ mnemonic_lines lines ≤ 100 ∧
  NoDup (defined_labels lines) ∧
  ∃ pre line post,
    lines = pre ++ line :: post ∧ label_of line = Some lab ∧
    a = mnemonic_lines pre.
Proof.
  intros H Hlab.
  destruct (assemble_new_label _ _ _ _ _ H Hlab)
    as (Hnd & pre & line & post & -> & Hl & ->).
  destruct r as [mc cc].
  destruct (assemble_new_words _ _ _ _ H) as (words & Hlen & Hle & _).
  destruct (label_of_shape _ _ Hl) as [Hne Hns].
  split_and!; [done | done | | lia | done | by exists pre, line, post].
  rewrite mnemonic_lines_app. lia.
Qed.

Lemma label_table_witness :
  ∃ self' r,
    assemble new ["loop: INP"; "BRZ end"; "BRA loop"; "end: HLT"] = Ok (self', r) ∧
    labels self' !! "end" = Some 3 ∧
    3 ≤ mnemonic_lines ["loop: INP"; "BRZ end"; "BRA loop"; "end: HLT"] ∧
    ∃ pre line post,
      ["loop: INP"; "BRZ end"; "BRA loop"; "end: HLT"] = pre ++ line :: post ∧
      label_of line = Some "end" ∧ 3 = mnemonic_lines pre.
Proof.
  assert (∃ x, assemble new ["loop: INP"; "BRZ end"; "BRA loop"; "end: HLT"] = Ok x)
    as [[self' r] H] by (eexists; vm_compute; reflexivity).
  assert (labels self' !! "end" = Some 3) as Hlab.
  { revert H. vm_compute. intros [= <- _]. reflexivity. }
  destruct (label_table _ _ _ _ _ H Hlab) as (_ & _ & Hle & _ & _ & Hsplit).
  exists self', r. split; [exact H|]. split; [exact Hlab|].
  split; [exact Hle | exact Hsplit].
Defined.

(** ** The range of the words *)

Lemma encode_word_100 d w :
  (1 ≤ d ≤ 8)%Z →
  int_or_raise (Py.str d +:+ Py.zfill 2 (Py.str (Z.of_nat 100))) = Ok w →
  w = (d * 1000 + 100)%Z.
Proof.
  intros Hd.
  assert (d = 1 ∨ d = 2 ∨ d = 3 ∨ d = 4 ∨ d = 5 ∨ d = 6 ∨ d = 7 ∨ d = 8)%Z
    as Hcases by lia.
  repeat destruct Hcases as [->|Hcases]; try subst d;
    vm_compute; by intros [= <-].
Qed.

(** A word beyond the three-digit range comes from a label at
    address 100. *)
Lemma stored_word_new lines self' r w :
  assemble new lines = Ok (self', r) → stored_word (labels self') w →
  (-999 ≤ w ≤ 999)%Z ∨
  (mnemonic_lines lines = 100 ∧
   ∃ d lab, (1 ≤ d ≤ 8)%Z ∧ w = (d * 1000 + 100)%Z ∧
            labels self' !! lab = Some 100).
Proof.
  intros H [Hr|(d & lab & a & Hd & Hlab & Ha & Hint)]; [by left|]. right.
  destruct (assemble_new_label _ _ _ _ _ H Hlab)
    as (_ & pre & line & post & -> & _ & ->).
  destruct r as [mc cc].
  destruct (assemble_new_words _ _ _ _ H) as (words & Hlen & Hle & _).
  rewrite mnemonic_lines_app in Hlen |- *.
  assert (mnemonic_lines pre = 100) as Hpre by lia.
  split; [lia|]. exists d, lab. rewrite Hpre in Hint, Hlab.
  split_and!; [lia | lia | by apply encode_word_100 | done].
Qed.

Lemma lookup_words (words : list Z) k i w :
  ((Some <$> words) ++ replicate k None) !! i = Some (Some w) ↔ words !! i = Some w.
Proof.
  split.
  - intros [Hw|[_ Hw]]%lookup_app_Some.
    + rewrite list_lookup_fmap in Hw.
      destruct (words !! i) as [w'|]; [|done]. by injection Hw as <-.
    + by apply lookup_replicate in Hw as [[=] _].
  - intros Hw. apply lookup_app_Some. left. by rewrite list_lookup_fmap, Hw.
Qed.

(** X10. Every word that a successful translation leaves in the memory
    lies in -999..999, with one exception: when the source has exactly
    100 mnemonic-bearing lines and a label behind the last of them, an
    operand instruction that names this label -- whose address is 100 --
    is stored as [digit * 1000 + 100]. *)
Theorem word_range lines self' mc cc i w :
  assemble new lines = Ok (self', (mc, cc)) →
  memory self' !! i = Some (Some w) →
  (-999 ≤ w ≤ 999)%Z ∨
  (mnemonic_lines lines = 100 ∧
   ∃ d lab, (1 ≤ d ≤ 8)%Z ∧ w = (d * 1000 + 100)%Z ∧
            labels self' !! lab = Some 100).
Proof.
  intros H Hw.
  destruct (assemble_new_words _ _ _ _ H) as (words & _ & _ & Hmem & _ & Hall).
  rewrite Hmem in Hw. apply lookup_words in Hw.
  rewrite Forall_forall in Hall.
  apply (stored_word_new lines self' (mc, cc) w H), Hall.
  by eapply list_elem_of_lookup_2.
Qed.

Lemma word_range_witness :
  ∃ self' mc cc,
    assemble new label_behind_memory = Ok (self', (mc, cc)) ∧
    memory self' !! 0 = Some (Some 6100%Z) ∧
    ((-999 ≤ 6100 ≤ 999)%Z ∨
     (mnemonic_lines label_behind_memory = 100 ∧
      ∃ d lab, (1 ≤ d ≤ 8)%Z ∧ 6100%Z = (d * 1000 + 100)%Z ∧
               labels self' !! lab = Some 100)).
Proof.
  assert (∃ x, assemble new label_behind_memory = Ok x)
    as [[self' [mc cc]] H] by (eexists; vm_compute; reflexivity).
  assert (memory self' !! 0 = Some (Some 6100%Z)) as Hw.
  { revert H. vm_compute. intros [= <- _ _]. reflexivity. }
  exists self', mc, cc. split; [exact H|]. split; [exact Hw|].
  exact (word_range _ _ _ _ _ _ H Hw).
Defined.

(** ** Lines that hold nothing *)

Lemma assemble_step_line_number ln ln' line st st' :
  assemble_step ln line st = Ok st' → assemble_step ln' line st = Ok st'.
Proof.
  unfold assemble_step.
  rewrite (parse_line_line_number line (ln + 1) 0),
    (parse_line_line_number line (ln' + 1) 0).
  destruct (parse_line line 0) as [[lab instr] operand].
  destruct instr as [[|c m]|]; [done | | done].
  destruct (String.eqb (String c m) "DAT").
  - destruct operand as [o|]; [|done]. rewrite !parse_operand_literal.
    destruct (literal_value o); simpl; [|done]. by destruct (negb _).
  - destruct (INSTRUCTIONS_get _); [|done].
    destruct (is_io_or_halt _); [done|].
    destruct operand as [o|]; [|done].
    destruct (labels (self st) !! o); [done|].
    rewrite !parse_operand_literal.
    destruct (literal_value o); simpl; [|done]. by destruct (negb _).
Qed.

Lemma assemble_loop_line_number lines ln ln' st st' :
  assemble_loop lines ln st = Ok st' → assemble_loop lines ln' st = Ok st'.
Proof.
  revert ln ln' st. induction lines as [|l lines IH]; intros ln ln' st; [done|].
  cbn [assemble_loop]. intros (st1 & Hstep & Hloop)%bind_Ok.
  apply bind_Ok. exists st1. split.
  - by apply (assemble_step_line_number ln).
  - by apply (IH (S ln)).
Qed.

Lemma first_pass_loop_line_number lines ln ln' st r :
  first_pass_loop lines ln st = Ok r → first_pass_loop lines ln' st = Ok r.
Proof.
  revert ln ln' st. induction lines as [|l lines IH]; intros ln ln' [a L]; [done|].
  cbn [first_pass_loop]. intros ([a1 L1] & Hstep & Hloop)%bind_Ok.
  apply bind_Ok. exists (a1, L1). split.
  - by apply first_pass_step_Ok, (first_pass_step_Ok ln).
  - by apply (IH (S ln)).
Qed.

Section Blank.

Variables (pre post : list string) (line : string).
Hypothesis Hmnemonic : mnemonic_bearing line = false.
Hypothesis Hlabel : label_of line = None.

Lemma first_pass_loop_blank st r :
  first_pass_loop (pre ++ line :: post) 0 st = Ok r ↔
  first_pass_loop (pre ++ post) 0 st = Ok r.
Proof.
  rewrite !first_pass_loop_app.
  destruct (first_pass_loop pre 0 st) as [[a L]|e]; [|done].
  change (first_pass_loop (line :: post) (0 + length pre) (a, L) = Ok r ↔
          first_pass_loop post (0 + length pre) (a, L) = Ok r).
  cbn [first_pass_loop].
  assert (first_pass_step (0 + length pre) line (a, L) = Ok (a, L)) as ->.
  { apply first_pass_step_Ok. rewrite Hmnemonic, Hlabel. split; [lia | done]. }
  split; apply first_pass_loop_line_number.
Qed.

Lemma assemble_loop_blank st st' :
  assemble_loop (pre ++ line :: post) 0 st = Ok st' ↔
  assemble_loop (pre ++ post) 0 st = Ok st'.
Proof.
  rewrite !assemble_loop_app.
  destruct (assemble_loop pre 0 st) as [st1|e]; [|done].
  change (assemble_loop (line :: post) (0 + length pre) st1 = Ok st' ↔
          assemble_loop post (0 + length pre) st1 = Ok st').
  cbn [assemble_loop].
  assert (assemble_step (0 + length pre) line st1 = Ok st1) as ->.
  { destruct (assemble_step_cases (0 + length pre) line st1) as [[_ H]|[H _]];
      [done | congruence]. }
  split; apply assemble_loop_line_number.
Qed.

(** X11. A line that holds neither a label nor a mnemonic -- a blank
    line, a comment -- can be left out of, or put into, a source text
    without any change to a translation that succeeds: the same object,
    listing and C text come out. (What changes is the numbering of the
    lines in the error messages.) *)
Theorem blank_line_irrelevant self0 r :
  assemble self0 (pre ++ line :: post) = Ok r ↔
  assemble self0 (pre ++ post) = Ok r.
Proof.
  destruct r as [self' [mc cc]]. rewrite !assemble_Ok.
  split; intros (self1 & st & H1 & H2 & Hrest); exists self1, st;
    (split; [|split; [by apply assemble_loop_blank | done]]);
    revert H1; unfold first_pass; rewrite !bind_Ok;
    intros (x & Hx & Hself); exists x; (split; [|done]);
    by apply first_pass_loop_blank.
Qed.

End Blank.

Lemma blank_line_irrelevant_witness :
  mnemonic_bearing "  // read the first number" = false ∧
  label_of "  // read the first number" = None ∧
  ∃ r, assemble new (["INP"] ++ ["OUT"; "HLT"]) = Ok r ∧
       assemble new (["INP"] ++ "  // read the first number" :: ["OUT"; "HLT"])
         = Ok r.
Proof.
  assert (mnemonic_bearing "  // read the first number" = false) as Hm
    by (vm_compute; reflexivity).
  assert (label_of "  // read the first number" = None) as Hl
    by (vm_compute; reflexivity).
  assert (∃ r, assemble new (["INP"] ++ ["OUT"; "HLT"]) = Ok r) as [r H]
    by (eexists; vm_compute; reflexivity).
  split; [exact Hm|]. split; [exact Hl|]. exists r. split; [exact H|].
  exact (proj2 (blank_line_irrelevant ["INP"] ["OUT"; "HLT"] _ Hm Hl new r) H).
Defined.

(** ** Literals with a radix prefix *)

Lemma scan_digits_nonneg base prev acc n s v n' rest :
  Py.scan_digits base prev acc n s = Some (v, n', rest) →
  (0 ≤ acc)%Z → (0 ≤ v)%Z.
Proof.
  revert prev acc n. induction s as [|c s IH]; intros prev acc n; simpl.
  - destruct prev; [done|]. by intros [= <- _ _].
  - destruct (Py.is_underscore c).
    + destruct prev; [done|]. apply IH.
    + destruct (Py.digit_value c <? base).
      * intros H Hacc. apply IH in H; [done | lia].
      * destruct prev; [done|]. by intros [= <- _ _].
Qed.

Lemma startswith_2 c0 c1 o :
  Py.startswith (String c0 (String c1 EmptyString)) o = true →
  ∃ t, o = String c0 (String c1 t).
Proof.
  unfold Py.startswith. destruct o as [|a0 [|a1 t]]; simpl; [done | |].
  - by destruct (ascii_dec c0 a0).
  - destruct (ascii_dec c0 a0) as [->|]; [|done].
    destruct (ascii_dec c1 a1) as [->|]; [|done]. eauto.
Qed.

Lemma int_unsigned_nonneg base c s v :
  Py.c_isspace c = false → nat_of_ascii c ≠ 43 → nat_of_ascii c ≠ 45 →
  Py.int base (String c s) = Some v → (0 ≤ v)%Z.
Proof.
  intros Hsp H43 H45. unfold Py.int.
  assert (Py.skip_space (String c s) = String c s) as ->
    by (simpl; by rewrite Hsp).
  assert (Py.read_sign (String c s) = (1%Z, String c s)) as ->.
  { simpl. apply Nat.eqb_neq in H43, H45. by rewrite H43, H45. }
  destruct (Py.skip_radix_prefix base (String c s)) as [|c' s']; [done|].
  destruct (Py.is_underscore c'); [done|].
  destruct (Py.scan_digits base false 0 0 (String c' s'))
    as [[[value digits] rest]|] eqn:E; [|done].
  destruct (digits =? 0); [done|].
  destruct (Py.skip_space rest); [|done].
  intros [= <-]. apply scan_digits_nonneg in E; lia.
Qed.

(** X12. A literal that starts with [0x] or [0b] is never negative:
    the prefix test looks at the first two characters, so that no sign
    can come before the prefix. *)
Theorem prefixed_literal_nonneg o n v :
  Py.startswith "0x" o = true ∨ Py.startswith "0b" o = true →
  parse_operand o n = Ok v → (0 ≤ v)%Z.
Proof.
  intros Hprefix. unfold parse_operand.
  assert (∃ c t, o = String "0" (String c t)) as (c & t & ->)
    by (destruct Hprefix as [(t & ->)%startswith_2|(t & ->)%startswith_2]; eauto).
  assert (∀ base, Py.int base (String "0" (String c t)) = Some v → (0 ≤ v)%Z)
    as Hint by (intros base; by apply int_unsigned_nonneg).
  destruct (Py.startswith "0x" _).
  - destruct (Py.int 16 _) as [v'|] eqn:E; [|done]. intros [= <-]. by apply (Hint 16).
  - destruct (Py.startswith "0b" _).
    + destruct (Py.int 2 _) as [v'|] eqn:E; [|done]. intros [= <-].
      by apply (Hint 2).
    + destruct (Py.int 10 _) as [v'|] eqn:E; [|done]. intros [= <-].
      by apply (Hint 10).
Qed.

Lemma prefixed_literal_nonneg_witness :
  (Py.startswith "0x" "0x_fF" = true ∨ Py.startswith "0b" "0x_fF" = true) ∧
  parse_operand "0x_fF" 1 = Ok 255%Z ∧ (0 ≤ 255)%Z.
Proof.
  assert (Py.startswith "0x" "0x_fF" = true ∨ Py.startswith "0b" "0x_fF" = true)
    as Hp by (left; reflexivity).
  assert (parse_operand "0x_fF" 1 = Ok 255%Z) as Hv by (vm_compute; reflexivity).
  split; [exact Hp|]. split; [exact Hv|].
  exact (prefixed_literal_nonneg _ _ _ Hp Hv).
Defined.

(** X13. The radix prefix is accepted in lower case and unsigned only:
    a token that starts with [0X], [0B], [0o] or [0O], or with a sign
    before [0x] or [0b], is read in base 10 and raises
    [InvalidOperandError], whatever follows. *)
Theorem radix_prefix_strict s n :
  Forall (λ p, parse_operand (p +:+ s) n
               = Raise (AssemblyError InvalidOperandError (n + 1)))
    ["0X"; "0B"; "0o"; "0O"; "-0x"; "+0x"; "-0b"; "+0b"].
Proof. repeat constructor. Qed.

(** ** Printing and reading back *)














(** ** The name of the output file *)

Lemma before_last_dot_app h t :
  no_dot t = true → before_last_dot (h +:+ String "." t) = Some h.
Proof.
  intros Ht.
  assert (before_last_dot t = None) as Hnone.
  { induction t as [|c t IH]; [done|]. simpl in *.
    apply andb_true_iff in Ht as [Hc Ht]. apply negb_true_iff in Hc.
    by rewrite IH, Hc. }
  induction h as [|c h IH].
  - simpl. by rewrite Hnone.
  - rewrite app_String. simpl. by rewrite IH.
Qed.

Lemma before_last_dot_Some s h :
  before_last_dot s = Some h → ∃ t, s = h +:+ String "." t ∧ no_dot t = true.
Proof.
  revert h. induction s as [|c s IH]; intros h; [done|]. simpl.
  destruct (before_last_dot s) as [h'|] eqn:E.
  - intros [= <-]. destruct (IH h' eq_refl) as (t & -> & Ht). by exists t.
  - destruct (is_dot c) eqn:Hc; [|done]. intros [= <-]. exists s. split.
    + f_equal. apply Nat.eqb_eq in Hc.
      rewrite <-(ascii_nat_embedding c), Hc. reflexivity.
    + clear IH. induction s as [|c' s IH]; [done|]. simpl in *.
      destruct (before_last_dot s); [done|].
      destruct (is_dot c'); [done|]. by apply IH.
Qed.

(** X15. The name of the file that [main] writes is the name of the
    input file with what follows its last dot replaced by [c], or with
    [.c] added when it has no dot. So the output file has the name of
    the input file exactly when that name ends in [.c] -- [main] then
    writes the C text over its own input -- and the name computed from
    an output name is that name again. *)
Theorem output_file_name input_file :
  (∀ h t, input_file = h +:+ "." +:+ t → no_dot t = true →
          output_file input_file = h +:+ ".c") ∧
  (no_dot input_file = true → output_file input_file = input_file +:+ ".c") ∧
  (output_file input_file = input_file ↔ ∃ h, input_file = h +:+ ".c") ∧
  output_file (output_file input_file) = output_file input_file.
Proof.
  assert (∀ h t, no_dot t = true → output_file (h +:+ "." +:+ t) = h +:+ ".c")
    as Hdot.
  { intros h t Ht. unfold output_file, rsplit_dot_first.
    change ("." +:+ t) with (String "." t). by rewrite before_last_dot_app. }
  split_and!.
  - intros h t -> Ht. by apply Hdot.
  - intros Hnone. unfold output_file, rsplit_dot_first.
    destruct (before_last_dot input_file) as [h|] eqn:E; [|done].
    apply before_last_dot_Some in E as (t & -> & Ht). exfalso.
    clear -Hnone. induction h as [|c h IH]; [done|].
    rewrite app_String in Hnone. simpl in Hnone.
    apply andb_true_iff in Hnone as [_ Hnone]. by apply IH.
  - split.
    + intros H. exists (rsplit_dot_first input_file). by rewrite <-H at 1.
    + intros [h ->]. by apply (Hdot h "c").
  - unfold output_file at 2. by apply (Hdot _ "c").
Qed.

(** ** The emitted program: its first state *)

Lemma set_slots_unset i k : set_slots i (replicate k None) = [].
Proof. revert i. induction k as [|k IH]; intros i; [done|]. simpl. apply IH. Qed.

Lemma initialize_words (ws : list Z) i pre k :
  Forall (λ w, Machine.int_of w = Some w) ws → length pre = i →
  Machine.initialize (set_slots i ((Some <$> ws) ++ replicate k None))
    (pre ++ replicate (length ws + k) 0%Z)
  = Some (pre ++ ws ++ replicate k 0%Z).
Proof.
  revert i pre. induction ws as [|w ws IH]; intros i pre Hall Hpre.
  - simpl. by rewrite set_slots_unset.
  - apply Forall_cons in Hall as [Hw Hall].
    cbn [fmap list_fmap app set_slots Machine.initialize length Nat.add].
    change (list_fmap Z (option Z) Some ws) with (Some <$> ws).
    rewrite Hw.
    assert ((i <? length (pre ++ replicate (S (length ws + k)) 0%Z)) = true) as ->.
    { apply Nat.ltb_lt. rewrite length_app, length_replicate. lia. }
    rewrite <-Hpre, insert_app_r_alt, Nat.sub_diag by done. simpl.
    rewrite (cons_middle w pre), app_assoc.
    rewrite (IH (S (length pre)) (pre ++ [w])); [|done|].
    + by rewrite <-app_assoc.
    + rewrite length_app. simpl. lia.
Qed.

Lemma initialize_image (ws : list Z) k n :
  Forall (λ w, Machine.int_of w = Some w) ws → n = length ws + k →
  Machine.initialize (set_slots 0 ((Some <$> ws) ++ replicate k None))
    (replicate n 0%Z)
  = Some (ws ++ replicate k 0%Z).
Proof. intros Hall ->. by apply (initialize_words ws 0 []). Qed.

(** X16. The program that a successful translation emits starts its
    loop with the accumulator and the program counter at 0 and with an
    array that holds the words of the translation from element 0 on and
    0 in every element behind them: no initializer falls outside the
    array or outside [int]. When all words lie in 0..999, so does all
    of this first state. *)
Theorem boot_image lines self' r :
  assemble new lines = Ok (self', r) →
  ∃ words,
    length words = mnemonic_lines lines ∧
    memory self' = (Some <$> words) ++ replicate (100 - length words) None ∧
    boot self'
    = Some (Machine.mkState 0 (words ++ replicate (100 - length words) 0%Z) 0) ∧
    (Forall small words →
     tidy (Machine.mkState 0 (words ++ replicate (100 - length words) 0%Z) 0)).
Proof.
  destruct r as [mc cc]. intros H.
  destruct (assemble_new_words _ _ _ _ H) as (words & Hlen & Hle & Hmem & _ & Hall).
  exists words. split_and!; [done..| |].
  2: { intros Hsmall. unfold tidy, small. simpl.
       rewrite length_app, length_replicate.
       split_and!; [lia | lia | lia | | lia | lia].
       apply Forall_app. split; [done|]. apply Forall_replicate. lia. }
  unfold boot. rewrite Hmem.
  rewrite (initialize_image words (100 - length words) 100); [done | | lia].
  eapply Forall_impl; [exact Hall|]. intros w Hw. cbv beta in Hw.
  apply (stored_word_new lines self' (mc, cc) w H) in Hw
    as [Hr|(_ & d & lab & Hd & -> & _)];
    unfold Machine.int_of, Machine.int_min, Machine.int_max;
    case_match eqn:E; try done;
    apply andb_false_iff in E as [E%Z.leb_gt|E%Z.leb_gt]; lia.
Qed.

Lemma boot_image_witness :
  ∃ self' r words,
    assemble new ["LDA x"; "OUT"; "HLT"; "x: DAT -7"] = Ok (self', r) ∧
    length words = 4 ∧
    boot self'
    = Some (Machine.mkState 0 (words ++ replicate (100 - length words) 0%Z) 0).
Proof.
  assert (∃ x, assemble new ["LDA x"; "OUT"; "HLT"; "x: DAT -7"] = Ok x)
    as [[self' r] H] by (eexists; vm_compute; reflexivity).
  destruct (boot_image _ _ _ H) as (words & Hlen & _ & Hboot & _).
  exists self', r, words. split; [exact H|]. split; [exact Hlen | exact Hboot].
Defined.

(** ** The emitted program: its indices *)

Lemma load_in_bounds (mem : list Z) i :
  length mem = 100 → (0 ≤ i < 100)%Z →
  ∃ m, Machine.load mem i = Some m ∧ m ∈ mem.
Proof.
  intros Hl Hi. unfold Machine.load.
  replace ((0 <=? i)%Z && (i <? 100)%Z) with true
    by (symmetry; rewrite andb_true_iff, Z.leb_le, Z.ltb_lt; lia).
  destruct (lookup_lt_is_Some_2 mem (Z.to_nat i)) as [m Hm]; [lia|].
  exists m. split; [done | by eapply list_elem_of_lookup_2].
Qed.

Lemma store_in_bounds (mem : list Z) i v :
  length mem = 100 → (0 ≤ i < 100)%Z →
  Machine.store mem i v = Some (<[Z.to_nat i := v]> mem).
Proof.
  intros Hl Hi. unfold Machine.store.
  replace ((0 <=? i)%Z && (i <? 100)%Z && (Z.to_nat i <? length mem)) with true;
    [done|].
  symmetry. rewrite !andb_true_iff, Nat.ltb_lt, Z.leb_le, Z.ltb_lt. lia.
Qed.

Lemma fetch_word (mem : list Z) i word :
  (0 ≤ i < 100)%Z → mem !! Z.to_nat i = Some word →
  Machine.load mem i = Some word.
Proof.
  intros Hi Hword. unfold Machine.load.
  replace ((0 <=? i)%Z && (i <? 100)%Z) with true
    by (symmetry; rewrite andb_true_iff, Z.leb_le, Z.ltb_lt; lia).
  done.
Qed.

(** An instruction between 1 and 9 comes with an operand between 0 and
    99: division rounds towards zero. *)
Lemma decode_operand word :
  (1 ≤ word ÷ 100)%Z → (0 ≤ Z.rem word 100 < 100)%Z.
Proof. intros H. Z.to_euclidean_division_equations. lia. Qed.

Local Ltac turn_leaf tac :=
  cbv beta iota; repeat case_match; intros ?; simplify_eq; tac.

Lemma step_in_bounds st inputs out events inputs' :
  length (Machine.memory st) = 100 → (0 ≤ Machine.pc st)%Z →
  Machine.step st inputs = (out, events, inputs') →
  out ≠ Machine.Undefined Machine.OutOfBounds ∧
  ∀ st', out = Machine.Continue st' ∨ out = Machine.Return0 st' →
         length (Machine.memory st') = 100 ∧ (0 ≤ Machine.pc st' ≤ 100)%Z.
Proof.
  intros Hlen Hpc. unfold Machine.step.
  destruct (100 <=? Machine.pc st)%Z eqn:Hhi.
  { intros [= <- _ _]. split; [done|]. by intros st' [|]. }
  apply Z.leb_gt in Hhi.
  destruct (lookup_lt_is_Some_2 (Machine.memory st) (Z.to_nat (Machine.pc st)))
    as [word Hword]; [lia|].
  rewrite (fetch_word _ _ word) by (done || lia).
  pose proof (decode_operand word) as Hop.
  destruct (word ÷ 100)%Z as [|p|p]; cbv zeta.
  - intros [= <- _ _]. split; [done|]. intros st' [[=]|[= <-]]. simpl. lia.
  - specialize (Hop ltac:(lia)).
    destruct (load_in_bounds (Machine.memory st) _ Hlen Hop) as (m & Hm & _).
    rewrite ?Hm, ?(store_in_bounds (Machine.memory st) _ _ Hlen Hop).
    do 4 (try destruct p as [p|p|]);
      turn_leaf ltac:(split;
        [done | intros st' [?|?]; simplify_eq; simpl;
                rewrite ?length_insert; lia]).
  - intros [= <- _ _]. split; [done|]. by intros st' [|].
Qed.

Lemma run_Continue turns st inputs st1 events1 inputs1 :
  Machine.step st inputs = (Machine.Continue st1, events1, inputs1) →
  Machine.run (S turns) st inputs =
  (let '(out, events', inputs') := Machine.run turns st1 inputs1 in
   (out, events1 ++ events', inputs')).
Proof. intros H. cbn [Machine.run]. by rewrite H. Qed.

Lemma run_end turns st inputs out events1 inputs1 :
  Machine.step st inputs = (out, events1, inputs1) →
  (∀ st1, out ≠ Machine.Continue st1) →
  Machine.run (S turns) st inputs = (out, events1, inputs1).
Proof.
  intros H Hout. cbn [Machine.run]. rewrite H.
  destruct out; [by destruct (Hout st0) | done..].
Qed.

(** X17. Whatever its array holds and whatever is input, the emitted
    program never reads or writes outside the 100 elements of
    [memory]: every operand that serves as an index lies in 0..99,
    because an instruction between 1 and 9 is decoded only from a word
    of at least 100, and the program counter stays in 0..100. *)
Theorem run_in_bounds turns st inputs out events inputs' :
  length (Machine.memory st) = 100 → (0 ≤ Machine.pc st ≤ 100)%Z →
  Machine.run turns st inputs = (out, events, inputs') →
  out ≠ Machine.Undefined Machine.OutOfBounds ∧
  ∀ st', out = Machine.Continue st' ∨ out = Machine.Return0 st' →
         length (Machine.memory st') = 100 ∧ (0 ≤ Machine.pc st' ≤ 100)%Z.
Proof.
  revert st inputs out events inputs'.
  induction turns as [|turns IH]; intros st inputs out events inputs' Hlen Hpc.
  - intros [= <- _ _]. split; [done|]. by intros st' [[= <-]|[=]].
  - destruct (Machine.step st inputs) as [[out1 events1] inputs1] eqn:Hstep.
    destruct (step_in_bounds _ _ _ _ _ Hlen ltac:(lia) Hstep) as [Hsafe Hnext].
    destruct out1 as [st1|st1| |why].
    + rewrite (run_Continue _ _ _ _ _ _ Hstep).
      destruct (Machine.run turns st1 inputs1) as [[out2 events2] inputs2] eqn:Hrun.
      intros [= <- _ _]. destruct (Hnext st1 ltac:(by left)) as [Hlen1 Hpc1].
      by apply (IH _ _ _ _ _ Hlen1 Hpc1 Hrun).
    + rewrite (run_end _ _ _ _ _ _ Hstep) by done. by intros [= <- _ _].
    + rewrite (run_end _ _ _ _ _ _ Hstep) by done. by intros [= <- _ _].
    + rewrite (run_end _ _ _ _ _ _ Hstep) by done. by intros [= <- _ _].
Qed.

Lemma run_in_bounds_witness :
  ∃ out events,
    length (Machine.memory
              (Machine.mkState 0 ([501; 399; 902; -250]%Z ++ replicate 96 0%Z) 0))
      = 100 ∧
    Machine.run 5 (Machine.mkState 0 ([501; 399; 902; -250]%Z ++ replicate 96 0%Z) 0) []
      = (out, events, []) ∧
    out ≠ Machine.Undefined Machine.OutOfBounds.
Proof.
  set (st := Machine.mkState 0 ([501; 399; 902; -250]%Z ++ replicate 96 0%Z) 0).
  assert (length (Machine.memory st) = 100) as Hlen by reflexivity.
  assert (0 ≤ Machine.pc st ≤ 100)%Z as Hpc by (simpl; lia).
  assert (∃ r, Machine.run 5 st [] = r) as [[[out events] inputs'] H]
    by (eexists; reflexivity).
  assert (inputs' = []) as -> by (revert H; vm_compute; by intros [= _ _ <-]).
  exists out, events. split; [exact Hlen|]. split; [exact H|].
  exact (proj1 (run_in_bounds 5 st [] out events [] Hlen Hpc H)).
Defined.

(** ** The emitted program: three decimal digits *)

Lemma int_of_in_range v :
  (Machine.int_min ≤ v ≤ Machine.int_max)%Z → Machine.int_of v = Some v.
Proof.
  intros Hv. unfold Machine.int_of.
  replace ((Machine.int_min <=? v)%Z && (v <=? Machine.int_max)%Z) with true; [done|].
  symmetry. rewrite andb_true_iff, !Z.leb_le. done.
Qed.

Lemma step_tidy st inputs out events inputs' :
  tidy st → Machine.step st inputs = (out, events, inputs') →
  (∀ why, out ≠ Machine.Undefined why) ∧
  (∀ st', out = Machine.Continue st' ∨ out = Machine.Return0 st' → tidy st') ∧
  Forall (λ e, ∀ v, e = Machine.Output v → small v) events.
Proof.
  intros (Hlen & Hacc & Hmem & Hpc). unfold Machine.step.
  destruct (100 <=? Machine.pc st)%Z eqn:Hhi.
  { intros [= <- <- _]. split_and!; [done | by intros st' [|] | by repeat constructor]. }
  apply Z.leb_gt in Hhi.
  destruct (lookup_lt_is_Some_2 (Machine.memory st) (Z.to_nat (Machine.pc st)))
    as [word Hword]; [lia|].
  rewrite (fetch_word _ _ word) by (done || lia).
  pose proof (decode_operand word) as Hop.
  destruct (word ÷ 100)%Z as [|p|p]; cbv zeta.
  - intros [= <- <- _]. split_and!; [done | | constructor].
    intros st' [[=]|[= <-]]. unfold tidy. simpl. split_and!; [done..| lia | lia].
  - specialize (Hop ltac:(lia)).
    destruct (load_in_bounds (Machine.memory st) _ Hlen Hop) as (m & Hm & Hin).
    assert (small m) as Hsmall by (rewrite Forall_forall in Hmem; by apply Hmem).
    unfold small in Hacc, Hsmall.
    assert (small (Z.rem (Machine.accumulator st + m) 1000)) as Hadd.
    { unfold small. Z.to_euclidean_division_equations. lia. }
    assert (small (Z.rem (Machine.accumulator st * m) 1000)) as Hmul.
    { unfold small.
      assert (0 ≤ Machine.accumulator st * m)%Z by nia.
      Z.to_euclidean_division_equations. lia. }
    assert (small (if (Machine.accumulator st - m <? 0)%Z then 0%Z
                   else (Machine.accumulator st - m)%Z)) as Hsub.
    { unfold small. case_match eqn:E; [lia|]. apply Z.ltb_ge in E. lia. }
    rewrite ?Hm, ?(store_in_bounds (Machine.memory st) _ _ Hlen Hop).
    rewrite (int_of_in_range (Machine.accumulator st + m)),
      (int_of_in_range (Machine.accumulator st - m)),
      (int_of_in_range (Machine.accumulator st * m))
      by (unfold Machine.int_min, Machine.int_max; nia).
    do 4 (try destruct p as [p|p|]);
      turn_leaf ltac:(
        repeat match goal with
               | H : (_ || _) = false |- _ =>
                   apply orb_false_iff in H as [?%Z.ltb_ge ?%Z.ltb_ge]
               end;
        split_and!;
        [ done
        | intros st' [?|?]; simplify_eq; unfold tidy, small in *; simpl;
          rewrite ?length_insert;
          split_and!; try done; try lia; try (by apply Forall_insert)
        | repeat (constructor; [intros ? ?; simplify_eq; unfold small; lia|]);
          constructor ]).
  - intros [= <- <- _]. split_and!; [done | by intros st' [|] | by repeat constructor].
Qed.

(** X18. When the accumulator and all elements of the array lie in
    0..999 -- as in the first state of a program whose words are all
    in that range -- they do so for the whole run: no operation
    overflows, no index leaves the array, the accumulator never gets
    negative (so that [BRP] always branches), and every number that the
    program outputs lies in 0..999. *)
Theorem run_tidy turns st inputs out events inputs' :
  tidy st → Machine.run turns st inputs = (out, events, inputs') →
  (∀ why, out ≠ Machine.Undefined why) ∧
  (∀ st', out = Machine.Continue st' ∨ out = Machine.Return0 st' → tidy st') ∧
  (∀ v, Machine.Output v ∈ events → (0 ≤ v ≤ 999)%Z).
Proof.
  intros Htidy Hrun.
  enough ((∀ why, out ≠ Machine.Undefined why) ∧
          (∀ st', out = Machine.Continue st' ∨ out = Machine.Return0 st' → tidy st') ∧
          Forall (λ e, ∀ v, e = Machine.Output v → small v) events)
    as (H1 & H2 & H3).
  { split_and!; [done..|]. intros v Hv. rewrite Forall_forall in H3.
    by apply (H3 _ Hv). }
  revert st inputs out events inputs' Htidy Hrun.
  induction turns as [|turns IH]; intros st inputs out events inputs' Htidy.
  - intros [= <- <- _]. split_and!; [done | by intros st' [[= <-]|[=]] | constructor].
  - destruct (Machine.step st inputs) as [[out1 events1] inputs1] eqn:Hstep.
    destruct (step_tidy _ _ _ _ _ Htidy Hstep) as (Hsafe & Hnext & Hout).
    destruct out1 as [st1|st1| |why].
    + rewrite (run_Continue _ _ _ _ _ _ Hstep).
      destruct (Machine.run turns st1 inputs1) as [[out2 events2] inputs2] eqn:Hrun.
      intros [= <- <- _].
      destruct (IH _ _ _ _ _ (Hnext st1 ltac:(by left)) Hrun) as (H1 & H2 & H3).
      split_and!; [done..|]. by apply Forall_app.
    + rewrite (run_end _ _ _ _ _ _ Hstep) by done. by intros [= <- <- _].
    + rewrite (run_end _ _ _ _ _ _ Hstep) by done. by intros [= <- <- _].
    + rewrite (run_end _ _ _ _ _ _ Hstep) by done. by intros [= <- <- _].
Qed.

Lemma run_tidy_witness :
  ∃ out events inputs',
    tidy (Machine.mkState 0 ([901; 306; 901; 206; 902; 0]%Z ++ replicate 94 0%Z) 0) ∧
    Machine.run 9 (Machine.mkState 0 ([901; 306; 901; 206; 902; 0]%Z ++ replicate 94 0%Z) 0)
      [Some 3%Z; Some 5%Z]
      = (out, events, inputs') ∧
    Machine.Output 2 ∈ events ∧ (0 ≤ 2 ≤ 999)%Z.
Proof.
  set (st := Machine.mkState 0 ([901; 306; 901; 206; 902; 0]%Z ++ replicate 94 0%Z) 0).
  assert (tidy st) as Htidy.
  { unfold tidy, small. simpl. split_and!; [done | lia | lia | | lia | lia].
    repeat (constructor; [lia|]). constructor. }
  assert (∃ r, Machine.run 9 st [Some 3%Z; Some 5%Z] = r) as [[[out events] inputs'] H]
    by (eexists; reflexivity).
  assert (Machine.Output 2 ∈ events) as Hin.
  { revert H. vm_compute. intros [= _ <- _]. do 2 apply list_elem_of_further.
    apply list_elem_of_here. }
  exists out, events, inputs'. split; [exact Htidy|]. split; [exact H|].
  split; [exact Hin|].
  exact (proj2 (proj2 (run_tidy 9 st _ out events inputs' Htidy H)) 2%Z Hin).
Defined.

(** ** The emitted program: words that are no instruction *)

Lemma switch_default {A} (instruction : Z) (a0 a1 a2 a3 a4 a5 a6 a7 a8 a9 d : A) :
  (instruction < 0 ∨ 9 < instruction)%Z →
  match instruction with
  | 0%Z => a0 | 1%Z => a1 | 2%Z => a2 | 3%Z => a3 | 4%Z => a4
  | 5%Z => a5 | 6%Z => a6 | 7%Z => a7 | 8%Z => a8 | 9%Z => a9
  | _ => d
  end = d.
Proof.
  intros H. destruct instruction as [|p|p]; [lia | | reflexivity].
  do 4 (try destruct p as [p|p|]); try reflexivity; lia.
Qed.

(** X19. What the emitted program does with a word that is no
    instruction, when the program counter gets to it: a word in
    -99..99 -- an element that was never initialized, a small [DAT] --
    ends the run as [HLT] does, because the division rounds towards
    zero; a word of 1000 or more, or of -100 or less, ends it in
    [exit(1)] after the message about an invalid instruction. *)
Theorem word_without_instruction st inputs word :
  (0 ≤ Machine.pc st < 100)%Z →
  Machine.memory st !! Z.to_nat (Machine.pc st) = Some word →
  ((-99 ≤ word ≤ 99)%Z →
   Machine.step st inputs
   = (Machine.Return0
        (Machine.mkState (Machine.accumulator st) (Machine.memory st)
           (Machine.pc st + 1)), [], inputs)) ∧
  ((word ≤ -100 ∨ 1000 ≤ word)%Z →
   Machine.step st inputs
   = (Machine.Exit1,
      [Machine.InvalidInstruction (word ÷ 100) (Machine.pc st)], inputs)).
Proof.
  intros Hpc Hword. unfold Machine.step.
  replace (100 <=? Machine.pc st)%Z with false by (symmetry; apply Z.leb_gt; lia).
  rewrite (fetch_word _ _ word) by done. cbv zeta. split.
  - intros Hw. replace (word ÷ 100)%Z with 0%Z; [done|].
    Z.to_euclidean_division_equations. lia.
  - intros Hw. rewrite switch_default.
    + by replace (Machine.pc st + 1 - 1)%Z with (Machine.pc st) by lia.
    + Z.to_euclidean_division_equations. lia.
Qed.

Lemma word_without_instruction_witness :
  (0 ≤ Machine.pc (Machine.mkState 7 ([6100; -5]%Z ++ replicate 98 0%Z) 0) < 100)%Z ∧
  Machine.step (Machine.mkState 7 ([6100; -5]%Z ++ replicate 98 0%Z) 0) []
    = (Machine.Exit1, [Machine.InvalidInstruction 61 0], []) ∧
  (0 ≤ Machine.pc (Machine.mkState 7 ([6100; -5]%Z ++ replicate 98 0%Z) 1) < 100)%Z ∧
  Machine.step (Machine.mkState 7 ([6100; -5]%Z ++ replicate 98 0%Z) 1) []
    = (Machine.Return0 (Machine.mkState 7 ([6100; -5]%Z ++ replicate 98 0%Z) 2),
       [], []).
Proof.
  assert (0 ≤ 0 < 100)%Z as H0 by lia.
  assert (0 ≤ 1 < 100)%Z as H1 by lia.
  split; [exact H0|]. split.
  - apply (proj2 (word_without_instruction
                    (Machine.mkState 7 ([6100; -5]%Z ++ replicate 98 0%Z) 0)
                    [] 6100%Z H0 eq_refl)). lia.
  - split; [exact H1|].
    apply (proj1 (word_without_instruction
                    (Machine.mkState 7 ([6100; -5]%Z ++ replicate 98 0%Z) 1)
                    [] (-5)%Z H1 eq_refl)). lia.
Defined.

(** ** The emitted program: negative data *)

Lemma run_app turns1 turns2 st inputs :
  Machine.run (turns1 + turns2) st inputs =
  match Machine.run turns1 st inputs with
  | (Machine.Continue st1, events1, inputs1) =>
      let '(out, events', inputs') := Machine.run turns2 st1 inputs1 in
      (out, events1 ++ events', inputs')
  | end_of_run => end_of_run
  end.
Proof.
  revert st inputs. induction turns1 as [|turns1 IH]; intros st inputs.
  - simpl. by destruct (Machine.run turns2 st inputs) as [[out events] inputs'].
  - cbn [Nat.add Machine.run].
    destruct (Machine.step st inputs) as [[[st1|st1| |why] events1] inputs1]; [|done..].
    rewrite IH.
    destruct (Machine.run turns1 st1 inputs1)
      as [[[st2|st2| |why] events2] inputs2]; [|done..].
    destruct (Machine.run turns2 st2 inputs2) as [[out events3] inputs3].
    by rewrite app_assoc.
Qed.

Lemma growing_sub acc :
  (0 ≤ acc)%Z → (acc + 999 ≤ Machine.int_max)%Z →
  Machine.step (Machine.mkState acc growing_memory 0) []
  = (Machine.Continue (Machine.mkState (acc + 999) growing_memory 1), [], []).
Proof.
  intros Hacc Hmax. unfold Machine.step.
  change (100 <=? Machine.pc _)%Z with false.
  change (Machine.load _ (Machine.pc _)) with (Some 202%Z).
  cbv beta iota zeta.
  change (202 ÷ 100)%Z with 2%Z. change (Z.rem 202 100) with 2%Z.
  cbv beta iota.
  change (Machine.load _ 2) with (Some (-999)%Z). cbv beta iota.
  cbn [Machine.accumulator Machine.memory Machine.pc].
  rewrite int_of_in_range by (unfold Machine.int_min, Machine.int_max in *; lia).
  replace (acc - -999 <? 0)%Z with false by (symmetry; apply Z.ltb_ge; lia).
  repeat f_equal; lia.
Qed.

Lemma growing_bra acc :
  Machine.step (Machine.mkState acc growing_memory 1) []
  = (Machine.Continue (Machine.mkState acc growing_memory 0), [], []).
Proof. reflexivity. Qed.

Lemma growing_overflow acc :
  (Machine.int_max < acc + 999)%Z →
  Machine.step (Machine.mkState acc growing_memory 0) []
  = (Machine.Undefined Machine.Overflow, [], []).
Proof.
  intros Hmax. unfold Machine.step.
  change (100 <=? Machine.pc _)%Z with false.
  change (Machine.load _ (Machine.pc _)) with (Some 202%Z).
  cbv beta iota zeta.
  change (202 ÷ 100)%Z with 2%Z. change (Z.rem 202 100) with 2%Z.
  cbv beta iota.
  change (Machine.load _ 2) with (Some (-999)%Z). cbv beta iota.
  cbn [Machine.accumulator Machine.memory Machine.pc].
  unfold Machine.int_of.
  replace (acc - -999 <=? Machine.int_max)%Z with false
    by (symmetry; apply Z.leb_gt; lia).
  by rewrite andb_false_r.
Qed.

Lemma growing_turns (k : nat) :
  (999 * Z.of_nat k ≤ Machine.int_max)%Z →
  Machine.run (2 * k) (Machine.mkState 0 growing_memory 0) []
  = (Machine.Continue (Machine.mkState (999 * Z.of_nat k) growing_memory 0), [], []).
Proof.
  induction k as [|k IH]; [done|]. intros Hk.
  replace (2 * S k) with (2 * k + 2) by lia.
  rewrite run_app, IH by (unfold Machine.int_max in *; lia).
  rewrite (run_Continue 1 _ _ _ _ _ (growing_sub (999 * Z.of_nat k) ltac:(lia)
             ltac:(unfold Machine.int_max in *; lia))).
  rewrite (run_Continue 0 _ _ _ _ _ (growing_bra _)).
  cbn [Machine.run app]. repeat f_equal; lia.
Qed.

(** X20. The range of X18 is lost once a word is negative: the source
    [loop: SUB step], [BRA loop], [step: DAT -999] is translated without
    error, and its program adds 999 to the accumulator in every round
    of the loop -- [SUB] resets only a negative difference to 0 -- so
    that the accumulator leaves 0..999 after two rounds and the
    subtraction overflows [int] in the end. *)
Theorem negative_data_overflows :
  ∃ self' r turns,
    assemble new growing = Ok (self', r) ∧
    boot self' = Some (Machine.mkState 0 growing_memory 0) ∧
    (∀ k : nat, (999 * Z.of_nat k ≤ Machine.int_max)%Z →
       Machine.run (2 * k) (Machine.mkState 0 growing_memory 0) []
       = (Machine.Continue (Machine.mkState (999 * Z.of_nat k) growing_memory 0),
          [], [])) ∧
    Machine.run turns (Machine.mkState 0 growing_memory 0) []
    = (Machine.Undefined Machine.Overflow, [], []).
Proof.
  assert (∃ x, assemble new growing = Ok x) as [[self' r] H]
    by (eexists; vm_compute; reflexivity).
  assert (∃ k : nat, Z.of_nat k = 2149633%Z) as [k Hk]
    by (exists (Z.to_nat 2149633); apply Z2Nat.id; lia).
  exists self', r, (2 * k + 1). split; [exact H|]. split.
  - vm_compute in H. injection H as <- _. reflexivity.
  - split; [apply growing_turns|].
    rewrite run_app, growing_turns by (rewrite Hk; unfold Machine.int_max; lia).
    rewrite (run_end 0 _ _ _ _ _
               (growing_overflow (999 * Z.of_nat k)
                  ltac:(rewrite Hk; unfold Machine.int_max; lia))) by done.
    done.
Qed.

(** ** A memory of another size *)

Lemma initialize_Some slots mem mem' :
  Machine.initialize slots mem = Some mem' →
  length mem' = length mem ∧ ∀ i v, (i, v) ∈ slots → i < length mem.
Proof.
  revert mem. induction slots as [|[j w] slots IH]; intros mem.
  - intros [= <-]. split; [done|]. by intros i v ?%elem_of_nil.
  - cbn [Machine.initialize].
    destruct (Machine.int_of w) as [w'|]; [|done].
    destruct (j <? length mem) eqn:Hj; [|done]. apply Nat.ltb_lt in Hj.
    intros [Hlen Hin]%IH. rewrite length_insert in Hlen, Hin.
    split; [done|]. intros i v [[= -> ->]|H]%elem_of_cons; [done|].
    by apply (Hin i v).
Qed.

Lemma assemble_init_words n lines self' mc cc :
  assemble (init n) lines = Ok (self', (mc, cc)) →
  ∃ words,
    length words = mnemonic_lines lines ∧ length words ≤ n ∧
    memory self' = (Some <$> words) ++ replicate (n - length words) None.
Proof.
  intros (self1 & st & H1 & H2 & -> & -> & _)%assemble_Ok.
  apply first_pass_Ok in H1 as (a & _ & _ & Hmem).
  destruct (assemble_loop_image lines 0 (start self1) st [] n H2)
    as (words & Hlen & Hle & Hmem' & _); [by cbn [start self]; rewrite Hmem | done..|].
  by exists words.
Qed.

(** X21. The size of the memory is a parameter of the assembler but
    not of the program it emits, whose array has 100 elements: an
    assembler with a larger memory translates a source of more than 100
    mnemonic-bearing lines without error, and the C text then holds an
    initializer for [memory[100]], outside the array. *)
Theorem memory_size_not_emitted n lines self' r :
  assemble (init n) lines = Ok (self', r) → 100 < mnemonic_lines lines →
  100 < n ∧
  (∃ w, initializer_stmt 100 w ∈ c_code_lines self') ∧
  boot self' = None.
Proof.
  destruct r as [mc cc]. intros H Hmore.
  destruct (assemble_init_words _ _ _ _ _ H) as (words & Hlen & Hle & Hmem).
  destruct (lookup_lt_is_Some_2 words 100) as [w Hw]; [lia|].
  assert ((100, w) ∈ set_slots 0 (memory self')) as Hslot.
  { apply elem_of_set_slots. split; [lia|]. rewrite Hmem. by apply lookup_words. }
  split_and!; [lia | |].
  - exists w. unfold c_code_lines.
    rewrite append_initializers_set_slots, !elem_of_app. left. right.
    by apply (list_elem_of_fmap_2 (λ iv, initializer_stmt iv.1 iv.2) _ (100, w)).
  - unfold boot.
    destruct (Machine.initialize _ _) as [mem|] eqn:E; [|done].
    apply initialize_Some in E as [_ Hin]. specialize (Hin _ _ Hslot).
    rewrite length_replicate in Hin. lia.
Qed.

Lemma memory_size_not_emitted_witness :
  ∃ self' r,
    assemble (init 101) (replicate 101 "HLT") = Ok (self', r) ∧
    100 < mnemonic_lines (replicate 101 "HLT") ∧
    boot self' = None.
Proof.
  assert (∃ x, assemble (init 101) (replicate 101 "HLT") = Ok x) as [[self' r] H]
    by (eexists; vm_compute; reflexivity).
  assert (100 < mnemonic_lines (replicate 101 "HLT")) as Hmore
    by (vm_compute; lia).
  exists self', r. split; [exact H|]. split; [exact Hmore|].
  exact (proj2 (proj2 (memory_size_not_emitted 101 _ self' r H Hmore))).
Defined.
